(** * fxTwitch: clip resolution and response shaping

    A shallow embedding of [fxtwitch_cache.py]: the token fetch, the clip
    resolution against the GraphQL endpoint, the user-agent classification and
    the three shapes of response of the clip endpoint, with the not-found
    middleware.

    Conventions of the embedding.
    - Python [str] is [string].  A header value holds one character per
      [ascii] (the HTTP layer decodes header bytes as Latin-1, so every
      character is below 256); text decoded from JSON is held as its UTF-8
      bytes, which is what [quote] percent-encodes and what the response
      carries.  A lone surrogate, which a JSON body may hold and UTF-8 cannot
      encode, is held as the three bytes the [surrogatepass] handler writes
      for it; [encodable] tells whether a text is free of them.  Bodies of
      upstream answers and texts of errors hold none: the HTTP client decodes
      a body with replacement and the interpreter's messages are ASCII.
    - Python exceptions are the type [exn]; code that may raise returns
      [result].  Every class of [exn] derives from Python's [Exception].
      The texts of the interpreter's own errors are those of CPython 3.11.
    - The HTTP client and the web framework are not part of the program:
      [requests.post] is a parameter; a [Response] is the response as the
      framework sends it, and [new_HTMLResponse] and [new_RedirectResponse]
      are the calls of its classes, which encode what they are given.
    - Logging calls have no effect on results and are left out. *)

From Stdlib Require Import ZArith NArith String Ascii List Bool Lia.
From Stdlib Require Import Floats.SpecFloat.
From stdpp Require Import base option gmap strings pretty.

Set Default Proof Using "Type".
Local Open Scope Z_scope.

(** The double quote and the line feed, written by their codes. *)
#[local] Abbreviation DQ := (String "034"%char EmptyString).
#[local] Abbreviation NL := (String "010"%char EmptyString).

(** ** Text: the [str] operations the program uses *)

(** One-character strings that cannot be written inside a literal. *)
Definition dquote : string := String (ascii_of_nat 34) EmptyString.
Definition newline : string := String (ascii_of_nat 10) EmptyString.

Definition between (lo hi n : N) : bool := ((lo <=? n) && (n <=? hi))%N.

(** [str.lower()] on one character below 256: the ASCII capitals and the
    Latin-1 capitals (192..222 but the multiplication sign 215) move up by 32,
    every other character is kept. *)
Definition lower_char (c : ascii) : ascii :=
  let n := N_of_ascii c in
  if between 65 90 n || (between 192 222 n && negb (n =? 215)%N)
  then ascii_of_N (n + 32)
  else c.

Fixpoint lower (s : string) : string :=
  match s with
  | EmptyString => EmptyString
  | String c r => String (lower_char c) (lower r)
  end.

(** Two characters that are the same letter in either case (or the same
    character), and two texts that are so character by character: what
    ignoring case means, said without [lower]. *)
Definition same_letter (c d : ascii) : Prop :=
  c = d
  \/ (between 65 90 (N_of_ascii c) = true /\ N_of_ascii d = (N_of_ascii c + 32)%N)
  \/ (between 65 90 (N_of_ascii d) = true /\ N_of_ascii c = (N_of_ascii d + 32)%N).

Fixpoint same_up_to_case (s t : string) : Prop :=
  match s, t with
  | EmptyString, EmptyString => True
  | String c s', String d t' => same_letter c d /\ same_up_to_case s' t'
  | _, _ => False
  end.

(** [s.startswith(p)] *)
Fixpoint startswith (s p : string) {struct p} : bool :=
  match p, s with
  | EmptyString, _ => true
  | String _ _, EmptyString => false
  | String a p', String b s' => Ascii.eqb a b && startswith s' p'
  end.

(** [sub in s]: [sub] occurs in [s] at some position. *)
Fixpoint str_contains (s sub : string) : bool :=
  startswith s sub ||
  match s with
  | EmptyString => false
  | String _ s' => str_contains s' sub
  end.

(** [urllib.parse.quote(s, safe='/')], which is [requests.utils.quote]:
    letters, digits, [_.-~] and [/] are kept, every other byte of the UTF-8
    encoding becomes [%XX] with capital hexadecimal digits. *)
Definition always_safe (c : ascii) : bool :=
  let n := N_of_ascii c in
  between 65 90 n || between 97 122 n || between 48 57 n
  || (n =? 95)%N || (n =? 46)%N || (n =? 45)%N || (n =? 126)%N.

Definition hex_digit (n : N) : ascii :=
  if (n <? 10)%N then ascii_of_N (48 + n) else ascii_of_N (55 + n).

Definition quote_byte (c : ascii) : string :=
  let n := N_of_ascii c in
  if always_safe c || (n =? 47)%N
  then String c EmptyString
  else String "%" (String (hex_digit (n / 16)) (String (hex_digit (n mod 16)) EmptyString)).

Fixpoint quote (s : string) : string :=
  match s with
  | EmptyString => EmptyString
  | String c r => quote_byte c +:+ quote r
  end.

(** [str.strip()], on the UTF-8 bytes of the text.  White space is what
    [str.isspace] accepts: the ASCII characters 9..13, 28..31 and 32, and
    U+0085, U+00A0, U+1680, U+2000..U+200A, U+2028, U+2029, U+202F, U+205F
    and U+3000, each met here as the bytes of its encoding. *)
Definition is_byte (n : N) (c : ascii) : bool := (N_of_ascii c =? n)%N.

Definition space1 (a : ascii) : bool :=
  between 9 13 (N_of_ascii a) || between 28 32 (N_of_ascii a).

Definition space2 (a b : ascii) : bool :=
  is_byte 194 a && (is_byte 133 b || is_byte 160 b).

Definition space3 (a b c : ascii) : bool :=
  (is_byte 225 a && is_byte 154 b && is_byte 128 c)
  || (is_byte 226 a && is_byte 128 b
      && (between 128 138 (N_of_ascii c) || is_byte 168 c || is_byte 169 c
          || is_byte 175 c))
  || (is_byte 226 a && is_byte 129 b && is_byte 159 c)
  || (is_byte 227 a && is_byte 128 b && is_byte 128 c).

(** The text after one white-space character at its head, if it has one. *)
Definition space_head (s : string) : option string :=
  match s with
  | EmptyString => None
  | String a r1 =>
      if space1 a then Some r1 else
      match r1 with
      | EmptyString => None
      | String b r2 =>
          if space2 a b then Some r2 else
          match r2 with
          | EmptyString => None
          | String c r3 => if space3 a b c then Some r3 else None
          end
      end
  end.

(** The same at the end of a text, which is given backwards. *)
Definition space_last (s : string) : option string :=
  match s with
  | EmptyString => None
  | String c r1 =>
      if space1 c then Some r1 else
      match r1 with
      | EmptyString => None
      | String b r2 =>
          if space2 b c then Some r2 else
          match r2 with
          | EmptyString => None
          | String a r3 => if space3 a b c then Some r3 else None
          end
      end
  end.

Fixpoint drop_spaces (head : string -> option string) (fuel : nat) (s : string)
    : string :=
  match fuel with
  | O => s
  | S fuel' =>
      match head s with
      | Some r => drop_spaces head fuel' r
      | None => s
      end
  end.

Definition str_rev (s : string) : string :=
  string_of_list_ascii (rev (list_ascii_of_string s)).

Definition lstrip (s : string) : string := drop_spaces space_head (String.length s) s.

Definition rstrip (s : string) : string :=
  str_rev (drop_spaces space_last (String.length s) (str_rev s)).

Definition strip (s : string) : string := rstrip (lstrip s).

(** What a reader of the URL does to get the token back,
    [urllib.parse.unquote_to_bytes]: [%XX] with two hexadecimal digits of
    either case becomes the byte, anything else is kept. *)
Definition unhex (c : ascii) : option N :=
  let n := N_of_ascii c in
  if between 48 57 n then Some (n - 48)%N
  else if between 65 70 n then Some (n - 55)%N
  else if between 97 102 n then Some (n - 87)%N
  else None.

Fixpoint unquote (s : string) : string :=
  match s with
  | EmptyString => EmptyString
  | String c r1 =>
      if is_byte 37 c then
        match r1 with
        | String h (String l r3) =>
            match unhex h, unhex l with
            | Some a, Some b => String (ascii_of_N (16 * a + b)) (unquote r3)
            | _, _ => String c (unquote r1)
            end
        | _ => String c (unquote r1)
        end
      else String c (unquote r1)
  end.

(** Text that UTF-8 cannot encode.  A lone surrogate, U+D800 to U+DFFF, is
    met as the bytes 237, 160..191, 128..191; no encodable text holds that
    sequence.  [surrogate_head] gives the surrogate a text starts with and
    what follows it. *)
Definition surrogate_head (s : string) : option (N * string) :=
  match s with
  | String a (String b (String c r)) =>
      if is_byte 237 a && between 160 191 (N_of_ascii b)
         && between 128 191 (N_of_ascii c)
      then Some (53248 + (N_of_ascii b - 128) * 64 + (N_of_ascii c - 128), r)%N
      else None
  | _ => None
  end.

Fixpoint encodable (s : string) : bool :=
  match surrogate_head s with
  | Some _ => false
  | None =>
      match s with
      | EmptyString => true
      | String _ r => encodable r
      end
  end.

(** The first surrogate of a text: its position counted in characters, its
    code point, and the text after it. *)
Fixpoint first_surrogate (s : string) (position : N) : option (N * N * string) :=
  match surrogate_head s with
  | Some (cp, r) => Some (position, cp, r)
  | None =>
      match s with
      | EmptyString => None
      | String c r =>
          first_surrogate r
            (if between 128 191 (N_of_ascii c) then position else position + 1)%N
      end
  end.

(** How many surrogates a text starts with. *)
Fixpoint surrogate_run (fuel : nat) (s : string) : N :=
  match fuel with
  | O => 0%N
  | S fuel' =>
      match surrogate_head s with
      | Some (_, r) => (1 + surrogate_run fuel' r)%N
      | None => 0%N
      end
  end.

Definition hex_lower (n : N) : ascii :=
  if (n <? 10)%N then ascii_of_N (48 + n) else ascii_of_N (87 + n).

Definition escape_u (cp : N) : string :=
  String "\" (String "u"
    (String (hex_lower (cp / 4096))
      (String (hex_lower (cp / 256 mod 16))
        (String (hex_lower (cp / 16 mod 16))
          (String (hex_lower (cp mod 16)) EmptyString))))).

(** [str(e)] of the error the UTF-8 codec raises on a text. *)
Definition codec_message (s : string) : string :=
  match first_surrogate s 0 with
  | Some (position, cp, rest) =>
      match surrogate_run (String.length rest) rest with
      | N0 =>
          "'utf-8' codec can't encode character '" +:+ escape_u cp
          +:+ "' in position " +:+ pretty position +:+ ": surrogates not allowed"
      | more =>
          "'utf-8' codec can't encode characters in position " +:+ pretty position
          +:+ "-" +:+ pretty (position + more)%N +:+ ": surrogates not allowed"
      end
  | None => EmptyString
  end.

(** [urllib.parse.quote(s, safe=...)] on encoded text, for any set of safe
    characters; the framework writes the target of a redirect with it. *)
Definition kept (safe : string) (c : ascii) : bool :=
  always_safe c || existsb (Ascii.eqb c) (list_ascii_of_string safe).

Definition quote_byte_with (safe : string) (c : ascii) : string :=
  let n := N_of_ascii c in
  if kept safe c
  then String c EmptyString
  else String "%" (String (hex_digit (n / 16)) (String (hex_digit (n mod 16)) EmptyString)).

Fixpoint quote_with (safe : string) (s : string) : string :=
  match s with
  | EmptyString => EmptyString
  | String c r => quote_byte_with safe c +:+ quote_with safe r
  end.

Definition location_safe : string := ":/%#?=@[]!$&'()*+,;".

(** What [quote] lets through: unreserved characters, the slash and the
    percent sign of an escape; in particular no [&], [=], [?] or quote. *)
Definition quoted_char (c : ascii) : bool :=
  always_safe c || (N_of_ascii c =? 47)%N || (N_of_ascii c =? 37)%N.

(** ** Values decoded from JSON *)

#[warnings="-register-all"]
Inductive jvalue : Type :=
| JNull
| JBool (b : bool)
| JInt (z : Z)
| JFloat (f : spec_float)
| JStr (s : string)
| JList (l : list jvalue)
| JDict (d : gmap string jvalue).

(** The object a subscript is taken with: a [str] key or an [int] index. *)
Inductive subscript : Type :=
| Key (k : string)
| Index (i : Z).

(** ** Exceptions *)

Inductive exn : Type :=
| Exception (msg : string)
| KeyError (key : subscript)
| IndexError (msg : string)
| TypeError (msg : string)
| RequestException (msg : string)
| JSONDecodeError (msg : string)
| UnicodeEncodeError (msg : string).

(** [repr] of a subscript; the keys of this program are plain identifiers,
    which [repr] puts between single quotes unchanged. *)
Definition repr_subscript (k : subscript) : string :=
  match k with
  | Key s => "'" +:+ s +:+ "'"
  | Index i => pretty i
  end.

(** [str(e)] *)
Definition str_exn (e : exn) : string :=
  match e with
  | Exception msg => msg
  | KeyError k => repr_subscript k
  | IndexError msg => msg
  | TypeError msg => msg
  | RequestException msg => msg
  | JSONDecodeError msg => msg
  | UnicodeEncodeError msg => msg
  end.

Inductive result (A : Type) : Type :=
| Ok (a : A)
| Raise (e : exn).
Arguments Ok {A} a.
Arguments Raise {A} e.

Definition bind {A B : Type} (c : result A) (k : A -> result B) : result B :=
  match c with
  | Ok a => k a
  | Raise e => Raise e
  end.

Notation "'do' x <- c ; k" := (bind c (fun x => k))
  (at level 10, x name, c at level 100, k at level 200).

(** [s.encode('utf-8')] *)
Definition encode_utf8 (s : string) : result string :=
  if encodable s then Ok s else Raise (UnicodeEncodeError (codec_message s)).

(** [try: body  except classes as e: handler e] *)
Definition try_except {A : Type} (body : result A) (classes : exn -> bool)
    (handler : exn -> result A) : result A :=
  match body with
  | Ok a => Ok a
  | Raise e => if classes e then handler e else Raise e
  end.

(** [except (IndexError, KeyError, TypeError)] *)
Definition lookup_or_type_error (e : exn) : bool :=
  match e with
  | IndexError _ | KeyError _ | TypeError _ => true
  | _ => false
  end.

(** [except Exception]: every class of [exn] derives from [Exception]. *)
Definition any_exception (e : exn) : bool := true.

(** ** Subscripting, [v[k]] *)

Definition type_name (v : jvalue) : string :=
  match v with
  | JNull => "NoneType"
  | JBool _ => "bool"
  | JInt _ => "int"
  | JFloat _ => "float"
  | JStr _ => "str"
  | JList _ => "list"
  | JDict _ => "dict"
  end.

(** A sequence index: negative indices count from the end. *)
Definition seq_index (len i : Z) : option nat :=
  let j := if i <? 0 then i + len else i in
  if (0 <=? j) && (j <? len) then Some (Z.to_nat j) else None.

Definition getitem (v : jvalue) (k : subscript) : result jvalue :=
  match v, k with
  | JDict d, Key s =>
      match d !! s with
      | Some x => Ok x
      | None => Raise (KeyError k)
      end
  | JDict _, Index _ => Raise (KeyError k)
  | JList l, Index i =>
      match seq_index (Z.of_nat (List.length l)) i with
      | Some n =>
          match nth_error l n with
          | Some x => Ok x
          | None => Raise (IndexError "list index out of range")
          end
      | None => Raise (IndexError "list index out of range")
      end
  | JList _, Key _ =>
      Raise (TypeError "list indices must be integers or slices, not str")
  | JStr s, Index i =>
      match seq_index (Z.of_nat (String.length s)) i with
      | Some n =>
          match String.get n s with
          | Some c => Ok (JStr (String c EmptyString))
          | None => Raise (IndexError "string index out of range")
          end
      | None => Raise (IndexError "string index out of range")
      end
  | JStr _, Key _ => Raise (TypeError "string indices must be integers, not 'str'")
  | _, _ => Raise (TypeError ("'" +:+ type_name v +:+ "' object is not subscriptable"))
  end.


(** ** The HTTP client: what [requests.post] hands back *)

Module requests.

(** [json] is the outcome of [response.json()]: the decoded body, or the
    message of the decoder's error when the body is not JSON. *)
Record Response : Type := {
  status_code : Z;
  text : string;
  json : jvalue + string
}.

(** The call itself either yields a response or fails in transport
    (connection refused, timeout, malformed header) with a message. *)
Definition outcome : Type := (Response + string)%type.

Definition returned (o : outcome) : result Response :=
  match o with
  | inl r => Ok r
  | inr msg => Raise (RequestException msg)
  end.

Definition decoded (r : Response) : result jvalue :=
  match json r with
  | inl v => Ok v
  | inr msg => Raise (JSONDecodeError msg)
  end.

End requests.

(** ** The HTTP server side: requests and responses of the framework *)

Record Request : Type := {
  headers : list (string * string)
}.

(** [request.headers.get(key, default)]: header names are stored in lower
    case, the key is lowered, the first header of that name wins. *)
Fixpoint headers_get (hs : list (string * string)) (key default : string) : string :=
  match hs with
  | [] => default
  | (name, value) :: rest =>
      if String.eqb name (lower key) then value else headers_get rest key default
  end.

Inductive Response : Type :=
| RedirectResponse (url : string) (status_code : Z)
| HTMLResponse (content : string) (status_code : Z)
| PlainTextResponse (content : string) (status_code : Z)
| JSONResponse (content : jvalue) (status_code : Z).

Definition status_code (r : Response) : Z :=
  match r with
  | RedirectResponse _ c | HTMLResponse _ c | PlainTextResponse _ c | JSONResponse _ c => c
  end.

(** The calls of the framework's classes.  A page is encoded as UTF-8 when
    the response is constructed; the URL of a redirect is written into the
    [Location] header percent-encoded, and that is the [url] of the response
    sent.  Either fails on text that cannot be encoded. *)
Definition new_HTMLResponse (content : string) (code : Z) : result Response :=
  do body <- encode_utf8 content;
  Ok (HTMLResponse body code).

Definition new_RedirectResponse (url : string) (code : Z) : result Response :=
  do bytes <- encode_utf8 url;
  Ok (RedirectResponse (quote_with location_safe bytes) code).

(** ** Constants of the program *)

Definition GITHUB_REDIRECT_URL : string := "https://github.com/RoyRiv3r/RoyRiv3r".
Definition token_url : string := "https://id.twitch.tv/oauth2/token".
Definition gql_url : string := "https://gql.twitch.tv/gql".
Definition TINYURL_API : string := "https://tinyurl.com/api-create.php".
Definition bot_agents : list string :=
  ["bot"; "crawler"; "spider"; "slurp"; "facebookexternalhit"; "whatsapp"].

(** The clip record assembled by the resolver (a dict literal with exactly
    these seven keys).  Fields copied from the upstream answer keep the type
    the answer gave them; the three built by string formatting are text. *)
Record ClipInfo : Type := {
  broadcaster_name : jvalue;
  title : jvalue;
  url : string;
  view_count : jvalue;
  creator_name : jvalue;
  thumbnail_url : string;
  video_url : string
}.

(** ** The specification's names for the program's own errors

    The program raises three errors of its own, told apart by the text they
    start with; the specification calls them [UpstreamAuthError],
    [UpstreamProtocolError] and [UpstreamShapeError]. *)

Definition auth_prefix : string := "Failed to get access token: ".
Definition protocol_prefix : string := "Failed to get clip info: ".
Definition shape_prefix : string := "Unexpected response structure: ".

Definition raised_with (prefix : string) (e : exn) : bool :=
  match e with
  | Exception msg => startswith msg prefix
  | _ => false
  end.

Definition UpstreamAuthError (e : exn) : bool := raised_with auth_prefix e.
Definition UpstreamProtocolError (e : exn) : bool := raised_with protocol_prefix e.
Definition UpstreamShapeError (e : exn) : bool := raised_with shape_prefix e.

(** The errors of the interpreter and of the libraries, which are not the
    program's own. *)
Definition bare (e : exn) : bool :=
  match e with
  | Exception _ => false
  | _ => true
  end.

(** ** Sample upstream answers, for running the program *)

Module Sample.

(** JSON text, assembled from text. *)
Definition jstr (s : string) : string := dquote +:+ s +:+ dquote.
Definition jfield (k v : string) : string := jstr k +:+ ":" +:+ v.
Definition jobj (fields : list string) : string :=
  "{" +:+ String.concat "," fields +:+ "}".
Definition jarr (items : list string) : string :=
  "[" +:+ String.concat "," items +:+ "]".

Definition answer (code : Z) (body : string) (decoded : jvalue + string)
    : requests.outcome :=
  inl {| requests.status_code := code; requests.text := body; requests.json := decoded |}.

(** The identity endpoint grants a token. *)
Definition token_granted : requests.outcome :=
  answer 200
    (jobj [jfield "access_token" (jstr "tok123"); jfield "expires_in" "5011271";
           jfield "token_type" (jstr "bearer")])
    (inl (JDict {[ "access_token" := JStr "tok123"; "expires_in" := JInt 5011271;
                   "token_type" := JStr "bearer" ]})).

(** The identity endpoint refuses the credentials. *)
Definition token_refused : requests.outcome :=
  answer 403
    (jobj [jfield "status" "403"; jfield "message" (jstr "invalid client secret")])
    (inl (JDict {[ "status" := JInt 403; "message" := JStr "invalid client secret" ]})).

(** The identity endpoint answers 200 with an empty object. *)
Definition token_without_field : requests.outcome :=
  answer 200 "{}" (inl (JDict ∅)).

(** Operation A of the query: the clip's overlay data. *)
Definition overlay_text : string :=
  jobj [jfield "data" (jobj [jfield "clip" (jobj
    [jfield "broadcaster"
       (jobj [jfield "displayName" (jstr "Bob"); jfield "login" (jstr "bob")]);
     jfield "slug" (jstr "TameClip");
     jfield "title" (jstr "Nice shot");
     jfield "viewCount" "42"])])].

Definition overlay : jvalue :=
  JDict {[ "data" := JDict {[ "clip" := JDict
    {[ "broadcaster" := JDict {[ "displayName" := JStr "Bob"; "login" := JStr "bob" ]};
       "slug" := JStr "TameClip";
       "title" := JStr "Nice shot";
       "viewCount" := JInt 42 ]} ]} ]}.

(** Operation B of the query: the playback token and the quality variants
    (each given by its source URL). *)
Definition quality_text (source : string) : string :=
  jobj [jfield "sourceURL" (jstr source)].

Definition quality (source : string) : jvalue :=
  JDict {[ "sourceURL" := JStr source ]}.

Definition access_text (sources : list string) : string :=
  jobj [jfield "data" (jobj [jfield "clip" (jobj
    [jfield "playbackAccessToken"
       (jobj [jfield "signature" (jstr "5f1e"); jfield "value" (jstr "clip=1&x=a b")]);
     jfield "videoQualities" (jarr (map quality_text sources))])])].

Definition access (sources : list string) : jvalue :=
  JDict {[ "data" := JDict {[ "clip" := JDict
    {[ "playbackAccessToken" :=
         JDict {[ "signature" := JStr "5f1e"; "value" := JStr "clip=1&x=a b" ]};
       "videoQualities" := JList (map quality sources) ]} ]} ]}.

Definition clip_answer (sources : list string) : requests.outcome :=
  answer 200 (jarr [overlay_text; access_text sources])
    (inl (JList [overlay; access sources])).

(** The query endpoint is down. *)
Definition query_unavailable : requests.outcome :=
  answer 503 "Service Unavailable" (inr "Expecting value: line 1 column 1 (char 0)").

(** An upstream: what each of the two endpoints answers. *)
Definition upstream (token query : requests.outcome)
    (u : string) (params : list (string * option string))
    (hs : list (string * string)) (body : option jvalue) : requests.outcome :=
  if String.eqb u token_url then token else query.

(** The answers of a valid clip with two variants, best first. *)
Definition valid_clip : string -> list (string * option string) ->
    list (string * string) -> option jvalue -> requests.outcome :=
  upstream token_granted
    (clip_answer ["https://cdn.example/clip-1080.mp4"; "https://cdn.example/clip-480.mp4"]).

(** The same clip with no variant on offer. *)
Definition clip_without_qualities : string -> list (string * option string) ->
    list (string * string) -> option jvalue -> requests.outcome :=
  upstream token_granted (clip_answer []).

(** No float, list or dict is printed in the samples. *)
Definition str_other (v : jvalue) : string := "<object>".

Definition client_id : option string := Some "id".
Definition client_secret : option string := Some "secret".

Definition browser : Request :=
  {| headers := [("host", "fx.example");
                 ("user-agent", "Mozilla/5.0 (Windows NT 10.0; Win64; x64)")] |}.
Definition crawler : Request :=
  {| headers := [("host", "fx.example");
                 ("user-agent", "Mozilla/5.0 (compatible; Googlebot/2.1)")] |}.
Definition anonymous : Request := {| headers := [("host", "fx.example")] |}.

(** What the resolver makes of [valid_clip]. *)
Definition resolved : ClipInfo :=
  {| broadcaster_name := JStr "Bob";
     title := JStr "Nice shot";
     url := "https://clips.twitch.tv/TameClip";
     view_count := JInt 42;
     creator_name := JStr "bob";
     thumbnail_url := "https://clips-media-assets2.twitch.tv/TameClip-preview-480x272.jpg";
     video_url := "https://cdn.example/clip-1080.mp4?sig=5f1e&token=clip%3D1%26x%3Da%20b" |}.


(** The clip is gone: both operations answer with a null clip. *)
Definition gone : jvalue := JDict {[ "data" := JDict {[ "clip" := JNull ]} ]}.
Definition gone_text : string := jobj [jfield "data" (jobj [jfield "clip" "null"])].
Definition clip_gone : requests.outcome :=
  answer 200 (jarr [gone_text; gone_text]) (inl (JList [gone; gone])).

(** A 200 answer of the query endpoint whose body is no JSON. *)
Definition query_garbled : requests.outcome :=
  answer 200 "<html>Bad Gateway</html>" (inr "Expecting value: line 1 column 1 (char 0)").

(** Operation B with a playback token whose value is null. *)
Definition access_null_value_text : string :=
  jobj [jfield "data" (jobj [jfield "clip" (jobj
    [jfield "playbackAccessToken"
       (jobj [jfield "signature" (jstr "5f1e"); jfield "value" "null"]);
     jfield "videoQualities" (jarr [quality_text "https://cdn.example/clip-1080.mp4"])])])].

Definition access_null_value : jvalue :=
  JDict {[ "data" := JDict {[ "clip" := JDict
    {[ "playbackAccessToken" :=
         JDict {[ "signature" := JStr "5f1e"; "value" := JNull ]};
       "videoQualities" := JList [quality "https://cdn.example/clip-1080.mp4"] ]} ]} ]}.

Definition clip_null_value : requests.outcome :=
  answer 200 (jarr [overlay_text; access_null_value_text])
    (inl (JList [overlay; access_null_value])).

(** The shortening service: an answer with the short URL on a line, and a
    failure that tells of its inside. *)
Definition tinyurl_answers (u : string) (params : list (string * option string))
    : requests.outcome :=
  answer 200 ("https://tinyurl.com/2p8x" +:+ newline)
    (inr "Expecting value: line 1 column 1 (char 0)").

Definition tinyurl_fails (u : string) (params : list (string * option string))
    : requests.outcome :=
  answer 500 "db-7.internal: too many connections"
    (inr "Expecting value: line 1 column 1 (char 0)").

(** A lone surrogate, U+D800, as it is held and as a JSON body spells it. *)
Definition lone_surrogate : string :=
  String (ascii_of_nat 237) (String (ascii_of_nat 160)
    (String (ascii_of_nat 128) EmptyString)).
Definition lone_surrogate_text : string := "\ud800".




(** A clip whose first source URL holds a lone surrogate. *)
Definition cursed_source : string -> list (string * option string) ->
    list (string * string) -> option jvalue -> requests.outcome :=
  upstream token_granted
    (answer 200
       (jarr [overlay_text;
              access_text ["https://cdn.example/" +:+ lone_surrogate_text +:+ ".mp4"]])
       (inl (JList [overlay;
                    access ["https://cdn.example/" +:+ lone_surrogate +:+ ".mp4"]]))).

(** A clip whose first source URL holds a space. *)
Definition spaced_source : string -> list (string * option string) ->
    list (string * string) -> option jvalue -> requests.outcome :=
  upstream token_granted (clip_answer ["https://cdn.example/my clip.mp4"]).

(** What the resolver makes of [spaced_source]. *)
Definition resolved_spaced : ClipInfo :=
  {| broadcaster_name := JStr "Bob";
     title := JStr "Nice shot";
     url := "https://clips.twitch.tv/TameClip";
     view_count := JInt 42;
     creator_name := JStr "bob";
     thumbnail_url := "https://clips-media-assets2.twitch.tv/TameClip-preview-480x272.jpg";
     video_url := "https://cdn.example/my clip.mp4?sig=5f1e&token=clip%3D1%26x%3Da%20b" |}.

End Sample.

(** ** The program *)

Section App.

(** Credentials read from the environment at start-up ([None] when unset). *)
Variable TWITCH_CLIENT_ID TWITCH_CLIENT_SECRET : option string.

(** [requests.post(url, params=..., headers=..., json=...)]: the upstream
    services, seen from the program. *)
Variable requests_post :
  string -> list (string * option string) -> list (string * string) ->
  option jvalue -> requests.outcome.

(** [requests.get(url, params=...)]: the URL shortening service. *)
Variable requests_get : string -> list (string * option string) -> requests.outcome.

(** [str()] of a float, a list or a dict, as the interpreter prints them. *)
Variable str_other : jvalue -> string.

(** [str(v)], which is what an f-string field [{v}] inserts. *)
Definition py_str (v : jvalue) : string :=
  match v with
  | JStr s => s
  | JNull => "None"
  | JBool true => "True"
  | JBool false => "False"
  | JInt z => pretty z
  | JFloat _ | JList _ | JDict _ => str_other v
  end.

(** [v[k1][k2]...] *)
Fixpoint subscripts (v : jvalue) (ks : list subscript) : result jvalue :=
  match ks with
  | [] => Ok v
  | k :: rest => do x <- getitem v k; subscripts x rest
  end.

(** [requests.utils.quote(v)]: text is encoded as UTF-8 and percent-encoded,
    anything else a JSON body can hold is refused. *)
Definition requests_utils_quote (v : jvalue) : result string :=
  match v with
  | JStr s => do bytes <- encode_utf8 s; Ok (quote bytes)
  | _ => Raise (TypeError "quote_from_bytes() expected bytes")
  end.

Definition token_params : list (string * option string) :=
  [("client_id", TWITCH_CLIENT_ID);
   ("client_secret", TWITCH_CLIENT_SECRET);
   ("grant_type", Some "client_credentials")].

Definition fetch_twitch_access_token : result jvalue :=
  let url := token_url in
  let params := token_params in
  do response <- requests.returned (requests_post url params [] None);
  if negb (requests.status_code response =? 200) then
    Raise (Exception ("Failed to get access token: " +:+ requests.text response))
  else
    do data <- requests.decoded response;
    Ok data.

Definition persisted_query (sha256Hash : string) : jvalue :=
  JDict {[ "persistedQuery" :=
           JDict {[ "version" := JInt 1; "sha256Hash" := JStr sha256Hash ]} ]}.

Definition payload (clip_id : string) : jvalue :=
  JList
    [ JDict {[ "operationName" := JStr "VideoPlayerStreamInfoOverlayClip";
               "variables" := JDict {[ "slug" := JStr clip_id ]};
               "extensions" :=
                 persisted_query
                   "fcefd8b2081e39d16cbdc94bc82142df01b143bb296f0043262c44c37dbd1f63" ]};
      JDict {[ "operationName" := JStr "VideoAccessToken_Clip";
               "variables" :=
                 JDict {[ "platform" := JStr "web"; "slug" := JStr clip_id ]};
               "extensions" :=
                 persisted_query
                   "6fd3af2b22989506269b9ac02dd87eb4a6688392d67d94e41a6886f1e9f5c00f" ]} ].

Definition gql_headers (access_token : jvalue) : list (string * string) :=
  [("Client-ID", "kimne78kx3ncx6brgo4mv6wki5h1ko");
   ("Authorization", "Bearer " +:+ py_str access_token);
   ("Content-Type", "application/json")].

(** The [try] block of the resolver: the three values read out of the
    decoded answer, any lookup failure re-raised as one error. *)
Definition parse_clip_information (response_data : jvalue)
    : result (jvalue * jvalue * jvalue) :=
  try_except
    (do clip_data <- subscripts response_data [Index 0; Key "data"; Key "clip"];
     do access_data <-
       subscripts response_data
         [Index 1; Key "data"; Key "clip"; Key "playbackAccessToken"];
     do video_qualities <-
       subscripts response_data
         [Index 1; Key "data"; Key "clip"; Key "videoQualities"];
     Ok (clip_data, access_data, video_qualities))
    lookup_or_type_error
    (fun e => Raise (Exception ("Unexpected response structure: " +:+ str_exn e))).

Definition thumbnail_of_slug (slug : jvalue) : string :=
  "https://clips-media-assets2.twitch.tv/" +:+ py_str slug +:+ "-preview-480x272.jpg".

Definition fetch_clip_info_sync (clip_id : string) : result ClipInfo :=
  do access_token_data <- fetch_twitch_access_token;
  do access_token <- getitem access_token_data (Key "access_token");
  do response <-
    requests.returned
      (requests_post gql_url [] (gql_headers access_token) (Some (payload clip_id)));
  if negb (requests.status_code response =? 200) then
    Raise (Exception ("Failed to get clip info: " +:+ requests.text response))
  else
    do response_data <- requests.decoded response;
    do parsed <- parse_clip_information response_data;
    let '(clip_data, access_data, video_qualities) := parsed in
    do signature <- getitem access_data (Key "signature");
    do token <- getitem access_data (Key "value");
    do video_url <- subscripts video_qualities [Index 0; Key "sourceURL"];
    do quoted <- requests_utils_quote token;
    let final_video_url :=
      py_str video_url +:+ "?sig=" +:+ py_str signature +:+ "&token=" +:+ quoted in
    do displayName <- subscripts clip_data [Key "broadcaster"; Key "displayName"];
    do title <- getitem clip_data (Key "title");
    do slug <- getitem clip_data (Key "slug");
    do viewCount <- getitem clip_data (Key "viewCount");
    do login <- subscripts clip_data [Key "broadcaster"; Key "login"];
    do slug' <- getitem clip_data (Key "slug");
    Ok {| broadcaster_name := displayName;
          title := title;
          url := "https://clips.twitch.tv/" +:+ py_str slug;
          view_count := viewCount;
          creator_name := login;
          thumbnail_url := thumbnail_of_slug slug';
          video_url := final_video_url |}.

Definition fetch_shortened_url_sync (url : string) : result string :=
  let params := [("url", Some url)] in
  do response <- requests.returned (requests_get TINYURL_API params);
  if negb (requests.status_code response =? 200) then
    Raise (Exception "Failed to shorten URL")
  else
    let shortened := strip (requests.text response) in
    Ok shortened.

(** The asynchronous wrappers run their synchronous function in place. *)
Definition get_twitch_access_token : result jvalue :=
  do token_data <- fetch_twitch_access_token;
  getitem token_data (Key "access_token").

Definition get_clip_info (clip_id : string) : result ClipInfo :=
  fetch_clip_info_sync clip_id.

Definition shorten_url (url : string) : result string :=
  fetch_shortened_url_sync url.

(** [GET /] *)
Definition root : Response := RedirectResponse GITHUB_REDIRECT_URL 301.

(** The user-agent test of the clip endpoint, on the header value as
    received: lowered, then searched for each marker. *)
Definition is_bot (user_agent_header : string) : bool :=
  let user_agent := lower user_agent_header in
  existsb (fun agent => str_contains user_agent agent) bot_agents.

(** Pieces of the metadata page. *)
Definition attr (name value : string) : string :=
  name +:+ "=" +:+ dquote +:+ value +:+ dquote.

Definition meta (a b : string) : string := "<meta " +:+ a +:+ " " +:+ b +:+ ">".

Definition og (property content : string) : string :=
  meta (attr "property" property) (attr "content" content).

Definition in12 : string := "            ".
Definition in16 : string := "                ".

Definition html_content (clip_info : ClipInfo) (video_url : string) : string :=
  newline
  +:+ in12 +:+ "<html>" +:+ newline
  +:+ in12 +:+ "<head>" +:+ newline
  +:+ in16 +:+ "<meta " +:+ attr "charset" "utf-8" +:+ ">" +:+ newline
  +:+ in16 +:+ meta (attr "name" "theme-color") (attr "content" "#6441a5") +:+ newline
  +:+ in16 +:+ og "og:title"
        (py_str (broadcaster_name clip_info) +:+ " - " +:+ py_str (title clip_info))
      +:+ newline
  +:+ in16 +:+ og "og:type" "video" +:+ newline
  +:+ in16 +:+ og "og:site_name"
        ("👁️ Views: " +:+ py_str (view_count clip_info) +:+ " | "
         +:+ py_str (creator_name clip_info))
      +:+ newline
  +:+ in16 +:+ og "og:url" (url clip_info) +:+ newline
  +:+ in16 +:+ og "og:video" video_url +:+ newline
  +:+ in16 +:+ og "og:video:secure_url" video_url +:+ newline
  +:+ in16 +:+ og "og:video:type" "video/mp4" +:+ newline
  +:+ in16 +:+ og "og:image" (thumbnail_url clip_info) +:+ newline
  +:+ in12 +:+ "</head>" +:+ newline
  +:+ in12 +:+ "<body>" +:+ newline
  +:+ in16 +:+ "<p>This page contains metadata for bots.</p>" +:+ newline
  +:+ in12 +:+ "</body>" +:+ newline
  +:+ in12 +:+ "</html>" +:+ newline
  +:+ in12.

(** [GET /clip/{clip_id}].  The two responses of a resolved clip are
    constructed inside the [try], so a page or a URL that cannot be encoded
    ends in the [except] branch as well; the text of an error can always be
    encoded. *)
Definition handle_clip (clip_id : string) (request : Request) : result Response :=
  try_except
    (do clip_info <- get_clip_info clip_id;
     let video_url := video_url clip_info in
     if is_bot (headers_get (headers request) "user-agent" "") then
       new_HTMLResponse (html_content clip_info video_url) 200
     else
       new_RedirectResponse video_url 301)
    any_exception
    (fun e => Ok (PlainTextResponse ("Error: " +:+ str_exn e) 500)).

(** The middleware around every request: [call_next] is the rest of the
    application, routing included. *)
Definition catch_not_found (request : Request) (call_next : Request -> Response)
    : Response :=
  let response := call_next request in
  if status_code response =? 404 then PlainTextResponse "Not Found" 404
  else response.

(** ** Facts about text *)

#[local] Arguments String.append !s1 s2 : simpl nomatch.

Lemma str_app_assoc (a b c : string) : (a +:+ b) +:+ c = a +:+ (b +:+ c).
Proof. induction a as [|x a IH]; simpl; [reflexivity | now rewrite IH]. Qed.

Lemma str_app_nil_r (s : string) : s +:+ EmptyString = s.
Proof. induction s as [|x s IH]; simpl; [reflexivity | now rewrite IH]. Qed.

Lemma str_app_length (a b : string) :
  String.length (a +:+ b) = (String.length a + String.length b)%nat.
Proof. induction a as [|x a IH]; simpl; [reflexivity | now rewrite IH]. Qed.

Lemma str_app_inv_head (p a b : string) : p +:+ a = p +:+ b -> a = b.
Proof.
  induction p as [|x p IH]; simpl; intros H; [exact H |].
  injection H as H. now apply IH.
Qed.

Lemma str_app_inv_tail (t a b : string) : a +:+ t = b +:+ t -> a = b.
Proof.
  revert b. induction a as [|x a IH]; intros [|y b] H; simpl in H.
  - reflexivity.
  - apply (f_equal String.length) in H. simpl in H.
    rewrite str_app_length in H. lia.
  - apply (f_equal String.length) in H. simpl in H.
    rewrite str_app_length in H. lia.
  - injection H as -> H. f_equal. now apply IH.
Qed.

Lemma startswith_spec (s p : string) :
  startswith s p = true <-> exists post, s = p +:+ post.
Proof.
  revert s. induction p as [|a p IH]; intros s; simpl.
  - split; [intros _; now exists s | reflexivity].
  - destruct s as [|b s].
    + split; [discriminate | intros [post H]; discriminate].
    + rewrite andb_true_iff, IH, Ascii.eqb_eq. split.
      * intros [-> [post ->]]. now exists post.
      * intros [post H]. injection H as -> ->. split; [reflexivity | now exists post].
Qed.

Lemma str_contains_spec (s sub : string) :
  str_contains s sub = true <-> exists pre post, s = pre +:+ sub +:+ post.
Proof.
  induction s as [|c s IH]; simpl; rewrite orb_true_iff, startswith_spec.
  - split.
    + intros [[post H] | H]; [| discriminate]. now exists EmptyString, post.
    + intros [[|x pre] [post H]]; [left; now exists post | discriminate].
  - rewrite IH. split.
    + intros [[post H] | [pre [post H]]].
      * now exists EmptyString, post.
      * exists (String c pre), post. simpl. now rewrite H.
    + intros [[|x pre] [post H]].
      * left. now exists post.
      * right. simpl in H. injection H as _ H. now exists pre, post.
Qed.

Lemma lower_app (a b : string) : lower (a +:+ b) = lower a +:+ lower b.
Proof. induction a as [|x a IH]; simpl; [reflexivity | now rewrite IH]. Qed.

Lemma lower_char_idem (c : ascii) : lower_char (lower_char c) = lower_char c.
Proof. destruct c as [[] [] [] [] [] [] [] []]; reflexivity. Qed.

Lemma lower_idem (s : string) : lower (lower s) = lower s.
Proof.
  induction s as [|c s IH]; simpl; [reflexivity |].
  now rewrite lower_char_idem, IH.
Qed.

Example lower_sample : lower "Mozilla/5.0 GoogleBot/2.1" = "mozilla/5.0 googlebot/2.1".
Proof. reflexivity. Qed.

Example quote_sample : quote "a b&c=d/e~f%" = "a%20b%26c%3Dd/e~f%25".
Proof. reflexivity. Qed.

Lemma quote_byte_chars (c : ascii) :
  forallb quoted_char (list_ascii_of_string (quote_byte c)) = true.
Proof. destruct c as [[] [] [] [] [] [] [] []]; reflexivity. Qed.

Lemma list_ascii_of_string_app (a b : string) :
  list_ascii_of_string (a +:+ b) = list_ascii_of_string a ++ list_ascii_of_string b.
Proof. induction a as [|x a IH]; simpl; [reflexivity | now rewrite IH]. Qed.

Lemma quote_chars (s : string) :
  forallb quoted_char (list_ascii_of_string (quote s)) = true.
Proof.
  induction s as [|c s IH]; [reflexivity |].
  cbn [quote]. rewrite list_ascii_of_string_app, forallb_app, IH.
  now rewrite quote_byte_chars.
Qed.

Lemma is_bot_lower (ua : string) : is_bot (lower ua) = is_bot ua.
Proof. unfold is_bot. now rewrite lower_idem. Qed.

Lemma is_bot_spec (ua : string) :
  is_bot ua = true <->
  exists marker, In marker bot_agents /\
    exists pre post, lower ua = pre +:+ marker +:+ post.
Proof.
  unfold is_bot. rewrite existsb_exists.
  split; intros [m [Hin H]]; exists m; split; try exact Hin;
    now apply str_contains_spec.
Qed.

(** ** Facts about failing computations *)

Lemma bind_ok {A B : Type} (c : result A) (k : A -> result B) (b : B) :
  bind c k = Ok b -> exists a, c = Ok a /\ k a = Ok b.
Proof. destruct c as [a|e]; simpl; [now exists a | discriminate]. Qed.

Lemma bind_raise {A B : Type} (c : result A) (k : A -> result B) (e : exn) :
  bind c k = Raise e -> c = Raise e \/ exists a, c = Ok a /\ k a = Raise e.
Proof. destruct c as [a|e']; simpl; [right; now exists a | left; congruence]. Qed.

(** Subscripting fails with one of the three errors the resolver's [try]
    block catches, and with no other. *)
Lemma getitem_raises (v : jvalue) (k : subscript) (e : exn) :
  getitem v k = Raise e -> lookup_or_type_error e = true.
Proof.
  unfold getitem. intros H.
  repeat match type of H with
         | match ?x with _ => _ end = _ => destruct x
         end; inversion H; reflexivity.
Qed.

Lemma subscripts_raises (ks : list subscript) (v : jvalue) (e : exn) :
  subscripts v ks = Raise e -> lookup_or_type_error e = true.
Proof.
  revert v. induction ks as [|k ks IH]; intros v H; simpl in H; [discriminate |].
  apply bind_raise in H as [H | [x [_ H]]].
  - now apply getitem_raises in H.
  - now apply IH in H.
Qed.

(** A first element followed by a key: the subscripted value is a non-empty
    list (text yields a character, which takes no key; a dict takes no
    index). *)
Lemma first_then_key (v x : jvalue) (k : string) :
  subscripts v [Index 0; Key k] = Ok x ->
  exists first rest, v = JList (first :: rest) /\ getitem first (Key k) = Ok x.
Proof.
  simpl. intros H. apply bind_ok in H as [first [H0 H]].
  apply bind_ok in H as [y [Hk H]]. injection H as ->.
  destruct v as [| | | | s | l | d]; try discriminate.
  - simpl in H0. destruct (seq_index _ 0); [| discriminate].
    destruct (String.get _ s); [| discriminate].
    injection H0 as <-. discriminate.
  - destruct l as [|a l]; [discriminate |].
    simpl in H0. unfold seq_index in H0. simpl in H0.
    replace (0 <? Z.pos (Pos.of_succ_nat (List.length l))) with true in H0
      by (symmetry; apply Z.ltb_lt; lia).
    simpl in H0. injection H0 as ->. now exists first, l.
Qed.

(** ** What a successful resolution went through *)

Lemma parse_clip_information_ok (response_data clip_data access_data qualities : jvalue) :
  parse_clip_information response_data = Ok (clip_data, access_data, qualities) ->
  subscripts response_data [Index 0; Key "data"; Key "clip"] = Ok clip_data
  /\ subscripts response_data
       [Index 1; Key "data"; Key "clip"; Key "playbackAccessToken"] = Ok access_data
  /\ subscripts response_data
       [Index 1; Key "data"; Key "clip"; Key "videoQualities"] = Ok qualities.
Proof.
  unfold parse_clip_information, try_except. intros H.
  match type of H with
  | match ?body with _ => _ end = _ => destruct body as [[[c a] q]|e] eqn:Hbody
  end.
  - injection H as -> -> ->.
    apply bind_ok in Hbody as [c [Hc Hbody]].
    apply bind_ok in Hbody as [a [Ha Hbody]].
    apply bind_ok in Hbody as [q [Hq Hbody]].
    injection Hbody as <- <- <-. auto.
  - destruct (lookup_or_type_error e); discriminate.
Qed.

Lemma requests_utils_quote_ok (v : jvalue) (quoted : string) :
  requests_utils_quote v = Ok quoted -> exists token, v = JStr token /\ quoted = quote token.
Proof.
  destruct v; simpl; try discriminate.
  unfold encode_utf8. destruct (encodable s); simpl; [| discriminate].
  intros H. injection H as <-. now eexists.
Qed.

Lemma fetch_clip_info_sync_ok (clip_id : string) (info : ClipInfo) :
  fetch_clip_info_sync clip_id = Ok info ->
  exists access_token response response_data clip_data access_data qualities,
    get_twitch_access_token = Ok access_token
    /\ requests_post gql_url [] (gql_headers access_token) (Some (payload clip_id))
        = inl response
    /\ requests.status_code response = 200
    /\ requests.json response = inl response_data
    /\ parse_clip_information response_data = Ok (clip_data, access_data, qualities)
    /\ exists signature token source slug,
         getitem access_data (Key "signature") = Ok signature
         /\ getitem access_data (Key "value") = Ok (JStr token)
         /\ subscripts qualities [Index 0; Key "sourceURL"] = Ok source
         /\ getitem clip_data (Key "slug") = Ok slug
         /\ subscripts clip_data [Key "broadcaster"; Key "displayName"]
             = Ok (broadcaster_name info)
         /\ getitem clip_data (Key "title") = Ok (title info)
         /\ getitem clip_data (Key "viewCount") = Ok (view_count info)
         /\ subscripts clip_data [Key "broadcaster"; Key "login"]
             = Ok (creator_name info)
         /\ url info = "https://clips.twitch.tv/" +:+ py_str slug
         /\ thumbnail_url info = thumbnail_of_slug slug
         /\ video_url info =
             py_str source +:+ "?sig=" +:+ py_str signature +:+ "&token=" +:+ quote token.
Proof.
  unfold fetch_clip_info_sync, get_twitch_access_token. intros H.
  apply bind_ok in H as [token_data [Htd H]].
  apply bind_ok in H as [access_token [Hat H]].
  apply bind_ok in H as [response [Hresp H]].
  destruct (requests.status_code response =? 200) eqn:Hstatus; simpl in H;
    [| discriminate].
  apply bind_ok in H as [response_data [Hdata H]].
  apply bind_ok in H as [[[clip_data access_data] qualities] [Hparse H]].
  apply bind_ok in H as [signature [Hsig H]].
  apply bind_ok in H as [tokv [Htok H]].
  apply bind_ok in H as [source [Hsrc H]].
  apply bind_ok in H as [quoted [Hq H]].
  apply requests_utils_quote_ok in Hq as [token [-> ->]].
  apply bind_ok in H as [displayName [Hdn H]].
  apply bind_ok in H as [ttl [Httl H]].
  apply bind_ok in H as [slug [Hslug H]].
  apply bind_ok in H as [views [Hviews H]].
  apply bind_ok in H as [login [Hlogin H]].
  apply bind_ok in H as [slug' [Hslug' H]].
  injection H as <-. simpl.
  assert (slug' = slug) as -> by congruence.
  exists access_token, response, response_data, clip_data, access_data, qualities.
  rewrite Htd. simpl.
  unfold requests.returned in Hresp.
  destruct (requests_post gql_url [] (gql_headers access_token) (Some (payload clip_id)))
    as [r|msg]; [| discriminate].
  injection Hresp as ->.
  unfold requests.decoded in Hdata.
  destruct (requests.json response) as [v|msg]; [| discriminate].
  injection Hdata as ->.
  apply Z.eqb_eq in Hstatus.
  repeat split; try assumption; try reflexivity.
  exists signature, token, source, slug.
  repeat split; assumption || reflexivity.
Qed.

(** ** The user-agent classification *)

Lemma capital_lower (c d : ascii) :
  between 65 90 (N_of_ascii c) = true ->
  N_of_ascii d = (N_of_ascii c + 32)%N ->
  lower_char c = d /\ lower_char d = d.
Proof.
  intros Hc Hd.
  assert (E : d = ascii_of_N (N_of_ascii c + 32))
    by (rewrite <- Hd; symmetry; apply ascii_N_embedding).
  subst d. clear Hd.
  destruct c as [[] [] [] [] [] [] [] []]; try discriminate Hc; split; reflexivity.
Qed.

Lemma same_letter_lower (c d : ascii) : same_letter c d -> lower_char c = lower_char d.
Proof.
  intros [-> | [[Hc Hd] | [Hd Hc]]]; [reflexivity | |].
  - destruct (capital_lower c d Hc Hd) as [H1 H2]. congruence.
  - destruct (capital_lower d c Hd Hc) as [H1 H2]. congruence.
Qed.

Lemma same_up_to_case_lower (s t : string) : same_up_to_case s t -> lower s = lower t.
Proof.
  revert t. induction s as [|c s IH]; intros [|d t] H; simpl in H;
    try contradiction; [reflexivity |].
  destruct H as [Hc Hs]. simpl. now rewrite (same_letter_lower c d Hc), (IH t Hs).
Qed.

(** A lowered character that is ASCII comes from itself or from its capital. *)
Lemma lower_char_ascii (x : ascii) :
  (N_of_ascii (lower_char x) <? 128)%N = true -> same_letter x (lower_char x).
Proof.
  destruct x as [[] [] [] [] [] [] [] []]; intros H;
    first [ left; reflexivity
          | right; left; split; reflexivity
          | discriminate H ].
Qed.

Lemma lower_ascii_same (s m : string) :
  lower s = m ->
  forallb (fun c => (N_of_ascii c <? 128)%N) (list_ascii_of_string m) = true ->
  same_up_to_case s m.
Proof.
  revert m. induction s as [|c s IH]; intros m <- H; simpl in *; [exact I |].
  apply andb_true_iff in H as [Hc Hs].
  split; [now apply lower_char_ascii | now apply IH].
Qed.

Lemma lower_app_inv (s a b : string) :
  lower s = a +:+ b -> exists x y, s = x +:+ y /\ lower x = a /\ lower y = b.
Proof.
  revert s. induction a as [|c a IH]; intros s H.
  - now exists EmptyString, s.
  - destruct s as [|d s]; [discriminate H |]. simpl in H. injection H as Hc H.
    destruct (IH s H) as (x & y & -> & Hx & Hy).
    exists (String d x), y. simpl. now rewrite Hc, Hx.
Qed.

(** The markers are lower-case ASCII. *)
Lemma marker_is_lower_ascii (marker : string) :
  In marker bot_agents ->
  lower marker = marker
  /\ forallb (fun c => (N_of_ascii c <? 128)%N) (list_ascii_of_string marker) = true.
Proof.
  intros H. repeat (destruct H as [<- | H]; [split; reflexivity |]). destruct H.
Qed.

(** The classification said without [lower]: a marker occurs in the
    user-agent, in any mixture of cases. *)
Lemma is_bot_caseless (ua : string) :
  is_bot ua = true <->
  exists marker pre mid post,
    In marker bot_agents /\ ua = pre +:+ mid +:+ post /\ same_up_to_case mid marker.
Proof.
  rewrite is_bot_spec. split.
  - intros (marker & Hin & p & q & H).
    apply lower_app_inv in H as (pre & rest & -> & _ & H).
    apply lower_app_inv in H as (mid & post & -> & Hmid & _).
    exists marker, pre, mid, post. repeat split; [exact Hin |].
    apply lower_ascii_same; [exact Hmid |].
    now apply marker_is_lower_ascii.
  - intros (marker & pre & mid & post & Hin & -> & Hsame).
    exists marker. split; [exact Hin |]. exists (lower pre), (lower post).
    rewrite !lower_app. apply same_up_to_case_lower in Hsame.
    rewrite Hsame. now rewrite (proj1 (marker_is_lower_ascii marker Hin)).
Qed.

(** C2.  Whether a client counts as automated is decided by the user-agent
    text alone, without regard to letter case: a client is automated exactly
    when its user-agent contains one of the six markers in any mixture of
    capitals and small letters (which is: when its lowered user-agent contains
    the marker); two user-agents that differ in the case of letters only are
    classified alike; any user-agent containing Googlebot, GOOGLEBOT,
    WhatsApp or FacebookExternalHit is automated, and the plain desktop
    browser one is a regular visitor. *)
Theorem client_classification :
  (forall ua : string,
     is_bot ua = true <->
     exists marker, In marker bot_agents /\
       exists pre post, lower ua = pre +:+ marker +:+ post)
  /\ (forall ua ua' : string, lower ua = lower ua' -> is_bot ua = is_bot ua')
  /\ (forall pre post : string, is_bot (pre +:+ "Googlebot" +:+ post) = true)
  /\ is_bot "Mozilla/5.0 (Windows NT 10.0; Win64; x64)" = false
  /\ (forall ua : string,
        is_bot ua = true <->
        exists marker pre mid post,
          In marker ["bot"; "crawler"; "spider"; "slurp"; "facebookexternalhit";
                     "whatsapp"]
          /\ ua = pre +:+ mid +:+ post /\ same_up_to_case mid marker)
  /\ (forall ua ua' : string, same_up_to_case ua ua' -> is_bot ua = is_bot ua')
  /\ (forall pre post : string,
        is_bot (pre +:+ "GOOGLEBOT" +:+ post) = true
        /\ is_bot (pre +:+ "WhatsApp" +:+ post) = true
        /\ is_bot (pre +:+ "FacebookExternalHit" +:+ post) = true)
  /\ is_bot "MOZILLA/5.0 (WINDOWS NT 10.0; WIN64; X64)" = false
  /\ lower "Mozilla/5.0 (compatible; GoogleBot/2.1)"
     = "mozilla/5.0 (compatible; googlebot/2.1)".
Proof.
  assert (Hlow : forall ua ua' : string, lower ua = lower ua' -> is_bot ua = is_bot ua').
  { intros ua ua' H. rewrite <- (is_bot_lower ua), <- (is_bot_lower ua').
    now rewrite H. }
  assert (Hin : forall pre mid post marker : string,
            In marker bot_agents -> lower mid = marker ->
            is_bot (pre +:+ mid +:+ post) = true).
  { intros pre mid post marker Hm Hmid. apply is_bot_spec.
    exists marker. split; [exact Hm |]. exists (lower pre), (lower post).
    now rewrite !lower_app, Hmid. }
  split; [exact is_bot_spec |].
  split; [exact Hlow |].
  split.
  { intros pre post. apply is_bot_spec.
    exists "bot". split; [now left |].
    exists (lower pre +:+ "google"), (lower post).
    rewrite !lower_app, str_app_assoc. reflexivity. }
  split; [reflexivity |].
  split; [exact is_bot_caseless |].
  split; [intros ua ua' H; apply Hlow; now apply same_up_to_case_lower |].
  split.
  { intros pre post. split; [| split].
    - change (pre +:+ "GOOGLEBOT" +:+ post)
        with (pre +:+ "GOOGLE" +:+ "BOT" +:+ post).
      rewrite <- (str_app_assoc pre "GOOGLE" ("BOT" +:+ post)).
      apply (Hin _ "BOT" _ "bot"); [now left | reflexivity].
    - apply (Hin _ _ _ "whatsapp"); [simpl; auto 10 | reflexivity].
    - apply (Hin _ _ _ "facebookexternalhit"); [simpl; auto 10 | reflexivity]. }
  split; reflexivity.
Qed.

(** ** The resolver *)

Lemma str_contains_inside (pre sub post : string) :
  str_contains (pre +:+ sub +:+ post) sub = true.
Proof. apply str_contains_spec. now exists pre, post. Qed.

(** C1.  A successful resolution took the first entry of the quality list as
    the answer gave it, and its video URL is that entry's source URL followed
    by [?sig=], the signature, [&token=] and the percent-encoded token; so the
    video URL is not empty and contains both parameters.  (The source URL and
    the signature are inserted as [str] prints them: text is inserted
    unchanged.) *)
Theorem resolved_video_url (clip_id : string) (info : ClipInfo) :
  fetch_clip_info_sync clip_id = Ok info ->
  exists access_token response response_data access_data first rest
         source signature token,
    requests_post gql_url [] (gql_headers access_token) (Some (payload clip_id))
      = inl response
    /\ requests.json response = inl response_data
    /\ subscripts response_data
         [Index 1; Key "data"; Key "clip"; Key "videoQualities"]
       = Ok (JList (first :: rest))
    /\ subscripts response_data
         [Index 1; Key "data"; Key "clip"; Key "playbackAccessToken"]
       = Ok access_data
    /\ getitem first (Key "sourceURL") = Ok source
    /\ getitem access_data (Key "signature") = Ok signature
    /\ getitem access_data (Key "value") = Ok (JStr token)
    /\ video_url info =
       py_str source +:+ "?sig=" +:+ py_str signature +:+ "&token=" +:+ quote token
    /\ (forall u s : string, source = JStr u -> signature = JStr s ->
          video_url info = u +:+ "?sig=" +:+ s +:+ "&token=" +:+ quote token)
    /\ video_url info <> EmptyString
    /\ str_contains (video_url info) ("?sig=" +:+ py_str signature) = true
    /\ str_contains (video_url info) ("&token=" +:+ quote token) = true.
Proof.
  intros H.
  apply fetch_clip_info_sync_ok in H
    as (access_token & response & response_data & clip_data & access_data
        & qualities & _ & Hpost & _ & Hjson & Hparse
        & signature & token & source & slug
        & Hsig & Htok & Hsrc & _ & _ & _ & _ & _ & _ & _ & Hurl).
  apply parse_clip_information_ok in Hparse as (_ & Haccess & Hq).
  apply first_then_key in Hsrc as (first & rest & -> & Hfirst).
  exists access_token, response, response_data, access_data, first, rest,
    source, signature, token.
  repeat (split; [assumption |]).
  split; [| split; [| split]].
  - intros u s -> ->. exact Hurl.
  - rewrite Hurl. destruct (py_str source); discriminate.
  - rewrite Hurl.
    rewrite <- (str_app_assoc "?sig=" (py_str signature)).
    apply str_contains_inside.
  - rewrite Hurl.
    replace (py_str source +:+ "?sig=" +:+ py_str signature +:+ "&token=" +:+ quote token)
      with ((py_str source +:+ "?sig=" +:+ py_str signature)
            +:+ ("&token=" +:+ quote token) +:+ EmptyString)
      by (now rewrite str_app_nil_r, !str_app_assoc).
    apply str_contains_inside.
Qed.

(** C7.  The thumbnail URL is computed from the clip's slug and from nothing
    else: for a slug [s] it is the asset host, [s] and the fixed suffix;
    distinct slugs give distinct URLs; and the thumbnail of a resolved clip is
    that function of the slug the answer carries. *)
Theorem thumbnail_url_of_slug :
  (forall s : string,
     thumbnail_of_slug (JStr s) =
     "https://clips-media-assets2.twitch.tv/" +:+ s +:+ "-preview-480x272.jpg")
  /\ (forall s1 s2 : string,
        s1 <> s2 -> thumbnail_of_slug (JStr s1) <> thumbnail_of_slug (JStr s2))
  /\ (forall (clip_id : string) (info : ClipInfo),
        fetch_clip_info_sync clip_id = Ok info ->
        exists access_token response response_data clip_data slug,
          requests_post gql_url [] (gql_headers access_token) (Some (payload clip_id))
            = inl response
          /\ requests.json response = inl response_data
          /\ subscripts response_data [Index 0; Key "data"; Key "clip"] = Ok clip_data
          /\ getitem clip_data (Key "slug") = Ok slug
          /\ thumbnail_url info = thumbnail_of_slug slug).
Proof.
  split; [reflexivity |]. split.
  - intros s1 s2 Hne H. apply Hne. unfold thumbnail_of_slug in H. simpl py_str in H.
    apply str_app_inv_head in H. now apply str_app_inv_tail in H.
  - intros clip_id info H.
    apply fetch_clip_info_sync_ok in H
      as (access_token & response & response_data & clip_data & access_data
          & qualities & _ & Hpost & _ & Hjson & Hparse
          & signature & token & source & slug
          & _ & _ & _ & Hslug & _ & _ & _ & _ & _ & Hthumb & _).
    apply parse_clip_information_ok in Hparse as (Hclip & _ & _).
    now exists access_token, response, response_data, clip_data, slug.
Qed.

(** ** The clip endpoint *)

Lemma og_spelled (property content : string) :
  og property content =
  "<meta property=" +:+ DQ +:+ property +:+ DQ +:+ " content=" +:+ DQ
  +:+ content +:+ DQ +:+ ">".
Proof. unfold og, meta, attr, dquote. now rewrite !str_app_assoc. Qed.

(** The resolved clip and an automated client: the page, when it can be
    encoded. *)
Lemma handle_clip_page (clip_id : string) (request : Request) (info : ClipInfo) :
  get_clip_info clip_id = Ok info ->
  is_bot (headers_get (headers request) "user-agent" EmptyString) = true ->
  encodable (html_content info (video_url info)) = true ->
  handle_clip clip_id request
  = Ok (HTMLResponse (html_content info (video_url info)) 200).
Proof.
  intros H Hbot Henc. unfold handle_clip. rewrite H. cbn [bind]. rewrite Hbot.
  unfold new_HTMLResponse, encode_utf8. now rewrite Henc.
Qed.

(** The resolved clip and a regular visitor: the redirect, when the URL can
    be encoded. *)
Lemma handle_clip_redirect (clip_id : string) (request : Request) (info : ClipInfo) :
  get_clip_info clip_id = Ok info ->
  is_bot (headers_get (headers request) "user-agent" EmptyString) = false ->
  encodable (video_url info) = true ->
  handle_clip clip_id request
  = Ok (RedirectResponse (quote_with location_safe (video_url info)) 301).
Proof.
  intros H Hbot Henc. unfold handle_clip. rewrite H. cbn [bind]. rewrite Hbot.
  unfold new_RedirectResponse, encode_utf8. now rewrite Henc.
Qed.

(** The request enters the handler's answer through its user-agent header
    only. *)
Lemma handle_clip_reads_user_agent (clip_id : string) (request request' : Request) :
  headers_get (headers request) "user-agent" EmptyString
  = headers_get (headers request') "user-agent" EmptyString ->
  handle_clip clip_id request = handle_clip clip_id request'.
Proof. intros H. unfold handle_clip. now rewrite H. Qed.

(** The handler always returns a response, and one of status 200, 301 or
    500: no error leaves it. *)
Lemma handle_clip_status (clip_id : string) (request : Request) :
  exists response,
    handle_clip clip_id request = Ok response
    /\ (status_code response = 200 \/ status_code response = 301
        \/ status_code response = 500).
Proof.
  unfold handle_clip, new_HTMLResponse, new_RedirectResponse, encode_utf8.
  destruct (get_clip_info clip_id) as [info|e]; cbn [bind try_except any_exception].
  - destruct (is_bot _).
    + destruct (encodable (html_content _ _));
        cbn [bind try_except any_exception]; eexists; split;
        try reflexivity; simpl; auto.
    + destruct (encodable (video_url info));
        cbn [bind try_except any_exception]; eexists; split;
        try reflexivity; simpl; auto.
  - eexists; split; [reflexivity |]. simpl. auto.
Qed.

Lemma handle_clip_returns (clip_id : string) (request : Request) :
  exists response, handle_clip clip_id request = Ok response.
Proof. destruct (handle_clip_status clip_id request) as (r & H & _). eauto. Qed.

(** Percent-encoding never shortens a text, and leaves exactly the texts
    made of kept characters as they are. *)
Lemma quote_with_length (safe s : string) :
  (String.length s <= String.length (quote_with safe s))%nat.
Proof.
  induction s as [|c s IH]; [reflexivity |].
  cbn [quote_with]. rewrite str_app_length. unfold quote_byte_with.
  destruct (kept safe c); simpl; lia.
Qed.

Lemma quote_with_fixed (safe s : string) :
  quote_with safe s = s <->
  forallb (kept safe) (list_ascii_of_string s) = true.
Proof.
  induction s as [|c s IH]; [simpl; split; reflexivity |].
  cbn [quote_with list_ascii_of_string forallb]. unfold quote_byte_with.
  destruct (kept safe c) eqn:Hc; simpl.
  - rewrite <- IH. split; [intros H; now injection H | now intros ->].
  - split; [| discriminate]. intros H. injection H as _ H.
    apply (f_equal String.length) in H. simpl in H.
    pose proof (quote_with_length safe s). lia.
Qed.


(** C4, as the program has it.  When the resolution succeeds, the client is
    classified as a regular visitor and the video URL can be encoded as
    UTF-8, the response is a redirect with status 301 and no HTML response;
    its target is the resolved video URL percent-encoded as the framework
    writes it, which is the video URL itself exactly when that holds kept
    characters only (letters, digits, [_.-~] and [:/%#?=@[]!$&'()*+,;]). *)
Theorem regular_visitor_gets_redirect
    (clip_id : string) (request : Request) (info : ClipInfo) :
  get_clip_info clip_id = Ok info ->
  is_bot (headers_get (headers request) "user-agent" EmptyString) = false ->
  encodable (video_url info) = true ->
  handle_clip clip_id request
  = Ok (RedirectResponse (quote_with location_safe (video_url info)) 301)
  /\ (quote_with location_safe (video_url info) = video_url info <->
      forallb (kept ":/%#?=@[]!$&'()*+,;") (list_ascii_of_string (video_url info))
      = true)
  /\ forall (content : string) (code : Z),
       handle_clip clip_id request <> Ok (HTMLResponse content code).
Proof.
  intros H Hbot Henc. rewrite (handle_clip_redirect _ _ _ H Hbot Henc).
  split; [reflexivity |]. split; [apply quote_with_fixed | discriminate].
Qed.


Lemma headers_get_absent_or_empty (hs : list (string * string)) :
  (forall value : string, In ("user-agent", value) hs -> value = EmptyString) ->
  headers_get hs "user-agent" EmptyString = EmptyString.
Proof.
  intros Hua. induction hs as [|[name value] hs IH]; [reflexivity |].
  cbn [headers_get]. change (lower "user-agent") with "user-agent".
  destruct (String.eqb name "user-agent") eqn:Hname.
  - apply String.eqb_eq in Hname as ->. apply Hua. now left.
  - apply IH. intros v Hin. apply Hua. now right.
Qed.

(** C10, as the program has it.  A request with no user-agent header, or with
    empty ones only, has the empty text classified; that is a regular
    visitor, and a successful resolution whose video URL can be encoded as
    UTF-8 is answered by the 301 redirect to the video URL (written as the
    framework percent-encodes it), not by the metadata page. *)
Theorem missing_user_agent_gets_redirect
    (clip_id : string) (request : Request) (info : ClipInfo) :
  (forall value : string,
     In ("user-agent", value) (headers request) -> value = EmptyString) ->
  get_clip_info clip_id = Ok info ->
  encodable (video_url info) = true ->
  headers_get (headers request) "user-agent" EmptyString = EmptyString
  /\ is_bot EmptyString = false
  /\ handle_clip clip_id request
     = Ok (RedirectResponse (quote_with location_safe (video_url info)) 301).
Proof.
  intros Hua H Henc.
  pose proof (headers_get_absent_or_empty _ Hua) as Hget.
  split; [exact Hget |]. split; [reflexivity |].
  apply handle_clip_redirect; [exact H | now rewrite Hget | exact Henc].
Qed.

(** ** The not-found middleware *)


Lemma other_status_passes (request : Request) (call_next : Request -> Response) :
  status_code (call_next request) <> 404 ->
  catch_not_found request call_next = call_next request.
Proof.
  intros H. unfold catch_not_found.
  now destruct (Z.eqb_spec (status_code (call_next request)) 404).
Qed.

(** ** Which error a failure is *)

Lemma startswith_app (prefix detail : string) : startswith (prefix +:+ detail) prefix = true.
Proof. apply startswith_spec. now exists detail. Qed.

Lemma lookup_error_is_not_own (prefix : string) (e : exn) :
  lookup_or_type_error e = true -> raised_with prefix e = false.
Proof. destruct e; simpl; congruence. Qed.

(** The two failures of the query are told apart by the error raised. *)
Lemma protocol_and_shape_differ (e : exn) :
  UpstreamProtocolError e = true -> UpstreamShapeError e = false.
Proof.
  unfold UpstreamProtocolError, UpstreamShapeError, raised_with.
  destruct e as [msg| | | | | |]; try discriminate.
  intros H. apply startswith_spec in H as [d ->].
  destruct (startswith _ shape_prefix) eqn:E; [| reflexivity].
  apply startswith_spec in E as [d' E]. discriminate E.
Qed.


(** Whatever fails inside the [try] block comes out as the shape error. *)
Lemma parse_failure_is_shape_error (response_data : jvalue) (e : exn) :
  parse_clip_information response_data = Raise e -> UpstreamShapeError e = true.
Proof.
  unfold parse_clip_information, try_except. intros H.
  match type of H with
  | match ?body with _ => _ end = _ => destruct body as [x|e0] eqn:Hbody
  end; [discriminate |].
  assert (Hcls : lookup_or_type_error e0 = true).
  { apply bind_raise in Hbody as [Hb | [c [_ Hbody]]];
      [now apply subscripts_raises in Hb |].
    apply bind_raise in Hbody as [Hb | [a [_ Hbody]]];
      [now apply subscripts_raises in Hb |].
    apply bind_raise in Hbody as [Hb | [q [_ Hbody]]];
      [now apply subscripts_raises in Hb | discriminate]. }
  rewrite Hcls in H. injection H as <-.
  exact (startswith_app shape_prefix (str_exn e0)).
Qed.

(** A quality list that is there but empty passes the [try] block; taking
    its first entry then fails with the list's own error. *)
Lemma empty_quality_list_raises
    (clip_id : string) (access_token : jvalue) (response : requests.Response)
    (response_data clip_data access_data signature token : jvalue) :
  get_twitch_access_token = Ok access_token ->
  requests_post gql_url [] (gql_headers access_token) (Some (payload clip_id))
    = inl response ->
  requests.status_code response = 200 ->
  requests.json response = inl response_data ->
  parse_clip_information response_data = Ok (clip_data, access_data, JList []) ->
  getitem access_data (Key "signature") = Ok signature ->
  getitem access_data (Key "value") = Ok token ->
  fetch_clip_info_sync clip_id = Raise (IndexError "list index out of range").
Proof.
  unfold get_twitch_access_token, fetch_clip_info_sync.
  intros Htok Hpost Hstatus Hjson Hparse Hsig Hval.
  destruct fetch_twitch_access_token as [token_data|]; [| discriminate].
  simpl in *. rewrite Htok. simpl. rewrite Hpost. simpl. rewrite Hstatus. simpl.
  unfold requests.decoded. rewrite Hjson. simpl. rewrite Hparse. simpl.
  rewrite Hsig. simpl. rewrite Hval. reflexivity.
Qed.

(** ** The token fetch *)

(** C6, as the program has it.  The token fetch raises its own error exactly
    when the identity endpoint answers with a status other than 200.  On
    status 200 the decoded body is handed back as it is; reading the token out
    of a body that is an object gives the value of its [access_token] field,
    and fails with [KeyError] for that key (not with the fetch's own error)
    when the field is missing. *)
Theorem access_token_contract :
  (forall response : requests.Response,
     requests_post token_url token_params [] None = inl response ->
     requests.status_code response <> 200 ->
     get_twitch_access_token
     = Raise (Exception (auth_prefix +:+ requests.text response)))
  /\ (forall (response : requests.Response) (body : jvalue),
        requests_post token_url token_params [] None = inl response ->
        requests.status_code response = 200 ->
        requests.json response = inl body ->
        fetch_twitch_access_token = Ok body)
  /\ (forall (response : requests.Response) (d : gmap string jvalue),
        requests_post token_url token_params [] None = inl response ->
        requests.status_code response = 200 ->
        requests.json response = inl (JDict d) ->
        get_twitch_access_token =
        match d !! "access_token" with
        | Some token => Ok token
        | None => Raise (KeyError (Key "access_token"))
        end)
  /\ (forall e : exn,
        get_twitch_access_token = Raise e ->
        (UpstreamAuthError e = true <->
         exists response,
           requests_post token_url token_params [] None = inl response
           /\ requests.status_code response <> 200)).
Proof.
  unfold get_twitch_access_token, fetch_twitch_access_token.
  split; [| split; [| split]].
  - intros response Hpost Hstatus. rewrite Hpost. simpl.
    now destruct (Z.eqb_spec (requests.status_code response) 200).
  - intros response body Hpost Hstatus Hjson. rewrite Hpost. simpl.
    rewrite Hstatus. simpl. unfold requests.decoded. now rewrite Hjson.
  - intros response d Hpost Hstatus Hjson. rewrite Hpost. simpl.
    rewrite Hstatus. simpl. unfold requests.decoded. rewrite Hjson. simpl.
    now destruct (d !! "access_token").
  - intros e. simpl.
    destruct (requests_post token_url token_params [] None) as [response|msg]; simpl.
    + destruct (Z.eqb_spec (requests.status_code response) 200) as [Hs|Hs]; simpl.
      * intros H. split; [| intros (r & Hr & Hne); congruence].
        intros Hauth. exfalso.
        unfold requests.decoded in H.
        destruct (requests.json response) as [body|msg]; simpl in H.
        -- apply getitem_raises in H.
           apply (lookup_error_is_not_own auth_prefix) in H.
           unfold UpstreamAuthError in Hauth. congruence.
        -- injection H as <-. discriminate.
      * intros H. injection H as <-. split.
        -- intros _. now exists response.
        -- intros _. exact (startswith_app auth_prefix (requests.text response)).
    + intros H. injection H as <-. split; [discriminate |].
      intros (r & Hr & _). discriminate.
Qed.

(** ** More facts about text: trimming and decoding *)

Lemma str_rev_app (a b : string) : str_rev (a +:+ b) = str_rev b +:+ str_rev a.
Proof.
  unfold str_rev. rewrite list_ascii_of_string_app, rev_app_distr.
  generalize (rev (list_ascii_of_string b)) as x.
  generalize (rev (list_ascii_of_string a)) as y.
  intros y x. induction x as [|c x IH]; simpl; [reflexivity | now rewrite IH].
Qed.

Lemma str_rev_involutive (s : string) : str_rev (str_rev s) = s.
Proof.
  unfold str_rev.
  now rewrite list_ascii_of_string_of_list_ascii, rev_involutive,
    string_of_list_ascii_of_string.
Qed.

Lemma str_rev_length (s : string) : String.length (str_rev s) = String.length s.
Proof.
  induction s as [|c s IH]; [reflexivity |].
  change (String c s) with (String c EmptyString +:+ s).
  rewrite str_rev_app, !str_app_length, IH. simpl. lia.
Qed.

(** A reader of one character at the head: what it takes off is a non-empty
    piece that it takes off whatever follows. *)
Definition takes_one_piece (head : string -> option string) : Prop :=
  forall s r, head s = Some r ->
    exists w, s = w +:+ r /\ (0 < String.length w)%nat
              /\ forall x, head (w +:+ x) = Some x.

Lemma space_head_piece : takes_one_piece space_head.
Proof.
  intros s r H. unfold space_head in H.
  destruct s as [|a [|b [|c r3]]]; try discriminate.
  - destruct (space1 a) eqn:E1; [| discriminate]. injection H as <-.
    exists (String a EmptyString). repeat split; [simpl; lia |].
    intros x. simpl. now rewrite E1.
  - destruct (space1 a) eqn:E1.
    + injection H as <-. exists (String a EmptyString).
      repeat split; [simpl; lia |]. intros x. simpl. now rewrite E1.
    + destruct (space2 a b) eqn:E2; [| discriminate]. injection H as <-.
      exists (String a (String b EmptyString)). repeat split; [simpl; lia |].
      intros x. simpl. now rewrite E1, E2.
  - destruct (space1 a) eqn:E1.
    + injection H as <-. exists (String a EmptyString).
      repeat split; [simpl; lia |]. intros x. simpl. now rewrite E1.
    + destruct (space2 a b) eqn:E2.
      * injection H as <-. exists (String a (String b EmptyString)).
        repeat split; [simpl; lia |]. intros x. simpl. now rewrite E1, E2.
      * destruct (space3 a b c) eqn:E3; [| discriminate]. injection H as <-.
        exists (String a (String b (String c EmptyString))).
        repeat split; [simpl; lia |]. intros x. simpl. now rewrite E1, E2, E3.
Qed.

Lemma space_last_piece : takes_one_piece space_last.
Proof.
  intros s r H. unfold space_last in H.
  destruct s as [|c [|b [|a r3]]]; try discriminate.
  - destruct (space1 c) eqn:E1; [| discriminate]. injection H as <-.
    exists (String c EmptyString). repeat split; [simpl; lia |].
    intros x. simpl. now rewrite E1.
  - destruct (space1 c) eqn:E1.
    + injection H as <-. exists (String c EmptyString).
      repeat split; [simpl; lia |]. intros x. simpl. now rewrite E1.
    + destruct (space2 b c) eqn:E2; [| discriminate]. injection H as <-.
      exists (String c (String b EmptyString)). repeat split; [simpl; lia |].
      intros x. simpl. now rewrite E1, E2.
  - destruct (space1 c) eqn:E1.
    + injection H as <-. exists (String c EmptyString).
      repeat split; [simpl; lia |]. intros x. simpl. now rewrite E1.
    + destruct (space2 b c) eqn:E2.
      * injection H as <-. exists (String c (String b EmptyString)).
        repeat split; [simpl; lia |]. intros x. simpl. now rewrite E1, E2.
      * destruct (space3 a b c) eqn:E3; [| discriminate]. injection H as <-.
        exists (String c (String b (String a EmptyString))).
        repeat split; [simpl; lia |]. intros x. simpl. now rewrite E1, E2, E3.
Qed.

Lemma drop_spaces_id (head : string -> option string) (fuel : nat) (s : string) :
  head s = None -> drop_spaces head fuel s = s.
Proof. intros H. destruct fuel; simpl; [reflexivity | now rewrite H]. Qed.

Lemma drop_spaces_done (head : string -> option string) :
  takes_one_piece head ->
  forall (fuel : nat) (s : string),
    (String.length s <= fuel)%nat -> head (drop_spaces head fuel s) = None.
Proof.
  intros Hh. induction fuel as [|fuel IH]; intros s Hlen; simpl.
  - destruct s; [| simpl in Hlen; lia].
    destruct (head EmptyString) as [r|] eqn:E; [| reflexivity].
    apply Hh in E as (w & Hs & Hw & _).
    apply (f_equal String.length) in Hs. rewrite str_app_length in Hs.
    simpl in Hs. lia.
  - destruct (head s) as [r|] eqn:E; [| exact E].
    apply IH. apply Hh in E as (w & -> & Hw & _).
    rewrite str_app_length in Hlen. lia.
Qed.

Lemma drop_spaces_fuel (head : string -> option string) :
  takes_one_piece head ->
  forall (f1 f2 : nat) (s : string),
    (String.length s <= f1)%nat -> (String.length s <= f2)%nat ->
    drop_spaces head f1 s = drop_spaces head f2 s.
Proof.
  intros Hh. induction f1 as [|f1 IH]; intros f2 s H1 H2.
  - destruct s; [| simpl in H1; lia]. simpl.
    destruct (head EmptyString) as [r|] eqn:E;
      [| now rewrite drop_spaces_id].
    apply Hh in E as (w & Hs & Hw & _).
    apply (f_equal String.length) in Hs. rewrite str_app_length in Hs.
    simpl in Hs. lia.
  - simpl. destruct (head s) as [r|] eqn:E; [| now rewrite drop_spaces_id].
    pose proof (Hh _ _ E) as (w & Hs & Hw & _).
    assert (Hr : (String.length r < String.length s)%nat)
      by (rewrite Hs, str_app_length; lia).
    destruct f2 as [|f2]; [lia |]. simpl. rewrite E. apply IH; lia.
Qed.

(** What was dropped is a piece that is dropped whole. *)
Lemma drop_spaces_split (head : string -> option string) :
  takes_one_piece head ->
  forall (fuel : nat) (s : string),
    exists pre, s = pre +:+ drop_spaces head fuel s
                /\ drop_spaces head (String.length pre) pre = EmptyString.
Proof.
  intros Hh. induction fuel as [|fuel IH]; intros s; simpl.
  - now exists EmptyString.
  - destruct (head s) as [r|] eqn:E; [| now exists EmptyString].
    pose proof (Hh _ _ E) as (w & Hs & Hw & Hx).
    destruct (IH r) as (pre & Hr & Hpre).
    exists (w +:+ pre). split.
    + rewrite str_app_assoc, <- Hr. exact Hs.
    + rewrite str_app_length.
      destruct (String.length w + String.length pre)%nat as [|n] eqn:En; [lia |].
      simpl. rewrite Hx. rewrite <- Hpre.
      apply drop_spaces_fuel; [exact Hh | lia | lia].
Qed.

Lemma lstrip_head (s : string) : space_head (lstrip s) = None.
Proof. apply drop_spaces_done; [exact space_head_piece | lia]. Qed.

Lemma lstrip_split (s : string) :
  exists pre, s = pre +:+ lstrip s /\ lstrip pre = EmptyString.
Proof. apply drop_spaces_split. exact space_head_piece. Qed.

Lemma rstrip_last (s : string) : space_last (str_rev (rstrip s)) = None.
Proof.
  unfold rstrip. rewrite str_rev_involutive.
  apply drop_spaces_done; [exact space_last_piece |].
  rewrite str_rev_length. lia.
Qed.

Lemma rstrip_split (s : string) :
  exists post, s = rstrip s +:+ post /\ rstrip post = EmptyString.
Proof.
  unfold rstrip.
  destruct (drop_spaces_split _ space_last_piece (String.length s) (str_rev s))
    as (pre & Hs & Hpre).
  exists (str_rev pre). split.
  - rewrite <- str_rev_app, <- Hs. now rewrite str_rev_involutive.
  - rewrite str_rev_involutive, str_rev_length, Hpre. reflexivity.
Qed.

(** A head that is no white space is none with less text behind it. *)
Lemma space_head_prefix (p x : string) :
  space_head (p +:+ x) = None -> space_head p = None.
Proof.
  intros H. destruct (space_head p) as [r|] eqn:E; [| reflexivity].
  apply space_head_piece in E as (w & -> & _ & Hx).
  rewrite str_app_assoc, Hx in H. discriminate.
Qed.

Lemma strip_split (s : string) :
  exists pre post,
    s = pre +:+ strip s +:+ post
    /\ lstrip pre = EmptyString /\ rstrip post = EmptyString.
Proof.
  destruct (lstrip_split s) as (pre & Hs & Hpre).
  destruct (rstrip_split (lstrip s)) as (post & Hl & Hpost).
  exists pre, post. unfold strip. now rewrite <- Hl.
Qed.

Lemma strip_ends (s : string) :
  space_head (strip s) = None /\ space_last (str_rev (strip s)) = None.
Proof.
  split; [| apply rstrip_last].
  destruct (rstrip_split (lstrip s)) as (post & Hl & _).
  apply (space_head_prefix _ post). unfold strip. rewrite <- Hl.
  apply lstrip_head.
Qed.

Lemma strip_idem (s : string) : strip (strip s) = strip s.
Proof.
  destruct (strip_ends s) as [Hh Hl].
  unfold strip at 1. unfold lstrip. rewrite (drop_spaces_id _ _ _ Hh).
  unfold rstrip. rewrite (drop_spaces_id _ _ _ Hl).
  apply str_rev_involutive.
Qed.

Example strip_sample :
  strip (" " +:+ newline +:+ "https://tinyurl.com/2p8x  " +:+ newline)
  = "https://tinyurl.com/2p8x".
Proof. reflexivity. Qed.

(** Decoding undoes the encoding, byte by byte. *)
Lemma unquote_quote_byte (c : ascii) (r : string) :
  unquote (quote_byte c +:+ r) = String c (unquote r).
Proof. destruct c as [[] [] [] [] [] [] [] []]; reflexivity. Qed.

Lemma unquote_quote (s : string) : unquote (quote s) = s.
Proof.
  induction s as [|c s IH]; [reflexivity |].
  cbn [quote]. now rewrite unquote_quote_byte, IH.
Qed.

Lemma quote_inj (s t : string) : quote s = quote t -> s = t.
Proof.
  intros H. apply (f_equal unquote) in H. now rewrite !unquote_quote in H.
Qed.

(** ** The resolver, end to end *)

Lemma parse_clip_information_intro
    (response_data clip_data access_data qualities : jvalue) :
  subscripts response_data [Index 0; Key "data"; Key "clip"] = Ok clip_data ->
  subscripts response_data
    [Index 1; Key "data"; Key "clip"; Key "playbackAccessToken"] = Ok access_data ->
  subscripts response_data
    [Index 1; Key "data"; Key "clip"; Key "videoQualities"] = Ok qualities ->
  parse_clip_information response_data = Ok (clip_data, access_data, qualities).
Proof.
  intros Hc Ha Hq. unfold parse_clip_information, try_except.
  rewrite Hc. cbn [bind]. rewrite Ha. cbn [bind]. now rewrite Hq.
Qed.

(** Running the resolver once the token is in hand. *)
Lemma fetch_clip_info_sync_with_token (clip_id : string) (access_token : jvalue) :
  get_twitch_access_token = Ok access_token ->
  fetch_clip_info_sync clip_id =
  (do response <-
     requests.returned
       (requests_post gql_url [] (gql_headers access_token) (Some (payload clip_id)));
   if negb (requests.status_code response =? 200) then
     Raise (Exception ("Failed to get clip info: " +:+ requests.text response))
   else
     do response_data <- requests.decoded response;
     do parsed <- parse_clip_information response_data;
     let '(clip_data, access_data, video_qualities) := parsed in
     do signature <- getitem access_data (Key "signature");
     do token <- getitem access_data (Key "value");
     do video_url <- subscripts video_qualities [Index 0; Key "sourceURL"];
     do quoted <- requests_utils_quote token;
     let final_video_url :=
       py_str video_url +:+ "?sig=" +:+ py_str signature +:+ "&token=" +:+ quoted in
     do displayName <- subscripts clip_data [Key "broadcaster"; Key "displayName"];
     do title <- getitem clip_data (Key "title");
     do slug <- getitem clip_data (Key "slug");
     do viewCount <- getitem clip_data (Key "viewCount");
     do login <- subscripts clip_data [Key "broadcaster"; Key "login"];
     do slug' <- getitem clip_data (Key "slug");
     Ok {| broadcaster_name := displayName;
           title := title;
           url := "https://clips.twitch.tv/" +:+ py_str slug;
           view_count := viewCount;
           creator_name := login;
           thumbnail_url := thumbnail_of_slug slug';
           video_url := final_video_url |}).
Proof.
  unfold get_twitch_access_token, fetch_clip_info_sync. intros H.
  destruct fetch_twitch_access_token as [token_data|]; [| discriminate].
  cbn [bind] in *. rewrite H. reflexivity.
Qed.

(** X2.  Whatever goes wrong inside the [try] block is a lookup error of one
    of the three chains read there, in their order, and comes out as the
    error [Unexpected response structure: ] followed by the text of that
    lookup error. *)
Theorem try_block_failure_is_wrapped (response_data : jvalue) (e : exn) :
  parse_clip_information response_data = Raise e ->
  exists e0,
    lookup_or_type_error e0 = true
    /\ e = Exception ("Unexpected response structure: " +:+ str_exn e0)
    /\ (subscripts response_data [Index 0; Key "data"; Key "clip"] = Raise e0
        \/ (subscripts response_data [Index 0; Key "data"; Key "clip"] <> Raise e0
            /\ subscripts response_data
                 [Index 1; Key "data"; Key "clip"; Key "playbackAccessToken"]
               = Raise e0)
        \/ subscripts response_data
             [Index 1; Key "data"; Key "clip"; Key "videoQualities"] = Raise e0).
Proof.
  unfold parse_clip_information, try_except. intros H.
  destruct (subscripts response_data [Index 0; Key "data"; Key "clip"])
    as [c|e1] eqn:Hc; cbn [bind] in H.
  - destruct (subscripts response_data
                [Index 1; Key "data"; Key "clip"; Key "playbackAccessToken"])
      as [a|e2] eqn:Ha; cbn [bind] in H.
    + destruct (subscripts response_data
                  [Index 1; Key "data"; Key "clip"; Key "videoQualities"])
        as [q|e3] eqn:Hq; cbn [bind] in H; [discriminate |].
      pose proof (subscripts_raises _ _ _ Hq) as Hcls. rewrite Hcls in H.
      injection H as <-. exists e3. auto.
    + pose proof (subscripts_raises _ _ _ Ha) as Hcls. rewrite Hcls in H.
      injection H as <-. exists e2. split; [exact Hcls |]. split; [reflexivity |].
      right. left. split; [discriminate | reflexivity].
  - pose proof (subscripts_raises _ _ _ Hc) as Hcls. rewrite Hcls in H.
    injection H as <-. exists e1. auto.
Qed.



(** X5.  A 200 answer of the query endpoint whose body is no JSON fails with
    the decoder's own error, raised before the [try] block is entered: it is
    not reported as an unexpected response structure. *)
Theorem undecodable_answer_is_not_wrapped
    (clip_id : string) (access_token : jvalue) (response : requests.Response)
    (msg : string) :
  get_twitch_access_token = Ok access_token ->
  requests_post gql_url [] (gql_headers access_token) (Some (payload clip_id))
    = inl response ->
  requests.status_code response = 200 ->
  requests.json response = inr msg ->
  fetch_clip_info_sync clip_id = Raise (JSONDecodeError msg)
  /\ UpstreamShapeError (JSONDecodeError msg) = false.
Proof.
  intros Htok Hpost Hstatus Hjson. split; [| reflexivity].
  rewrite (fetch_clip_info_sync_with_token _ _ Htok), Hpost.
  cbn [requests.returned bind]. rewrite Hstatus. cbn [Z.eqb Pos.eqb negb].
  unfold requests.decoded. now rewrite Hjson.
Qed.

(** X6.  A playback token whose value is not text (null, a number, an
    object) passes the [try] block and the reading of the signature and of the
    first source URL; the resolution then fails in the percent-encoding with
    a [TypeError], which is not reported as an unexpected response
    structure. *)
Theorem token_value_must_be_text
    (clip_id : string) (access_token : jvalue) (response : requests.Response)
    (response_data clip_data access_data qualities signature value source : jvalue) :
  get_twitch_access_token = Ok access_token ->
  requests_post gql_url [] (gql_headers access_token) (Some (payload clip_id))
    = inl response ->
  requests.status_code response = 200 ->
  requests.json response = inl response_data ->
  parse_clip_information response_data = Ok (clip_data, access_data, qualities) ->
  getitem access_data (Key "signature") = Ok signature ->
  getitem access_data (Key "value") = Ok value ->
  subscripts qualities [Index 0; Key "sourceURL"] = Ok source ->
  (forall text : string, value <> JStr text) ->
  fetch_clip_info_sync clip_id = Raise (TypeError "quote_from_bytes() expected bytes")
  /\ UpstreamShapeError (TypeError "quote_from_bytes() expected bytes") = false.
Proof.
  intros Htok Hpost Hstatus Hjson Hparse Hsig Hval Hsrc Hnot.
  split; [| reflexivity].
  rewrite (fetch_clip_info_sync_with_token _ _ Htok), Hpost.
  cbn [requests.returned bind]. rewrite Hstatus. cbn [Z.eqb Pos.eqb negb].
  unfold requests.decoded. rewrite Hjson. cbn [bind].
  rewrite Hparse. cbn [bind]. rewrite Hsig. cbn [bind]. rewrite Hval.
  cbn [bind]. rewrite Hsrc. cbn [bind].
  destruct value; try reflexivity. now destruct (Hnot s).
Qed.

(** Which errors are the program's own: an [Exception] whose text starts
    with the given words. *)
Lemma raised_with_iff (prefix : string) (e : exn) :
  raised_with prefix e = true <-> exists detail, e = Exception (prefix +:+ detail).
Proof.
  destruct e as [msg| | | | | |]; simpl;
    try (split; [discriminate | intros [d H]; discriminate H]).
  rewrite startswith_spec. split; intros [d H]; exists d; congruence.
Qed.

Lemma prefixes_differ (p q : string) (e : exn) :
  (forall d d', p +:+ d <> q +:+ d') ->
  raised_with p e = true -> raised_with q e = false.
Proof.
  intros Hpq Hp. destruct (raised_with q e) eqn:Hq; [| reflexivity].
  apply raised_with_iff in Hp as [d ->]. apply raised_with_iff in Hq as [d' Hq].
  injection Hq as Hq. now destruct (Hpq d d').
Qed.

(** The errors of the interpreter and of the libraries are not the
    program's own. *)
Lemma bare_not_own (prefix : string) (e : exn) :
  bare e = true -> raised_with prefix e = false.
Proof. now destruct e. Qed.

Lemma lookup_error_is_bare (e : exn) : lookup_or_type_error e = true -> bare e = true.
Proof. now destruct e. Qed.

Lemma requests_utils_quote_raises (v : jvalue) (e : exn) :
  requests_utils_quote v = Raise e -> bare e = true.
Proof.
  destruct v; simpl; try (intros H; now injection H as <-).
  unfold encode_utf8. destruct (encodable s); simpl; [discriminate |].
  intros H. now injection H as <-.
Qed.

(** The token stage: its failure is the token error exactly on a status
    other than 200, and never one of the two errors of the query. *)
Lemma token_stage_failure (e : exn) :
  get_twitch_access_token = Raise e ->
  (raised_with auth_prefix e = true <->
   exists response,
     requests_post token_url token_params [] None = inl response
     /\ requests.status_code response <> 200)
  /\ raised_with protocol_prefix e = false
  /\ raised_with shape_prefix e = false.
Proof.
  unfold get_twitch_access_token, fetch_twitch_access_token. cbn zeta.
  destruct (requests_post token_url token_params [] None) as [response|msg];
    cbn [requests.returned bind].
  - destruct (Z.eqb_spec (requests.status_code response) 200) as [Hs|Hs];
      cbn [negb].
    + intros H.
      assert (Hb : bare e = true).
      { unfold requests.decoded in H.
        destruct (requests.json response) as [body|msg]; cbn [bind] in H.
        - now apply getitem_raises, lookup_error_is_bare in H.
        - now injection H as <-. }
      rewrite !(bare_not_own _ _ Hb). repeat split; try discriminate.
      intros (r & Hr & Hne). now injection Hr as <-.
    + intros H. injection H as <-. split; [| split].
      * split; [intros _; now exists response |].
        intros _. exact (startswith_app auth_prefix (requests.text response)).
      * apply (prefixes_differ auth_prefix);
          [intros d d' E; discriminate E |].
        exact (startswith_app auth_prefix (requests.text response)).
      * apply (prefixes_differ auth_prefix);
          [intros d d' E; discriminate E |].
        exact (startswith_app auth_prefix (requests.text response)).
  - intros H. injection H as <-. repeat split; try discriminate.
    intros (r & Hr & _). discriminate Hr.
Qed.

(** What is read after the [try] block fails with bare errors only. *)
Lemma after_try_block_failure
    (clip_data access_data qualities : jvalue) (e : exn) :
  (do signature <- getitem access_data (Key "signature");
   do token <- getitem access_data (Key "value");
   do video_url <- subscripts qualities [Index 0; Key "sourceURL"];
   do quoted <- requests_utils_quote token;
   let final_video_url :=
     py_str video_url +:+ "?sig=" +:+ py_str signature +:+ "&token=" +:+ quoted in
   do displayName <- subscripts clip_data [Key "broadcaster"; Key "displayName"];
   do title <- getitem clip_data (Key "title");
   do slug <- getitem clip_data (Key "slug");
   do viewCount <- getitem clip_data (Key "viewCount");
   do login <- subscripts clip_data [Key "broadcaster"; Key "login"];
   do slug' <- getitem clip_data (Key "slug");
   Ok {| broadcaster_name := displayName;
         title := title;
         url := "https://clips.twitch.tv/" +:+ py_str slug;
         view_count := viewCount;
         creator_name := login;
         thumbnail_url := thumbnail_of_slug slug';
         video_url := final_video_url |}) = Raise e ->
  bare e = true.
Proof.
  intros H.
  apply bind_raise in H as [H | [x1 [_ H]]];
    [now apply getitem_raises, lookup_error_is_bare in H |].
  apply bind_raise in H as [H | [x2 [_ H]]];
    [now apply getitem_raises, lookup_error_is_bare in H |].
  apply bind_raise in H as [H | [x3 [_ H]]];
    [now apply subscripts_raises, lookup_error_is_bare in H |].
  apply bind_raise in H as [H | [x4 [_ H]]];
    [now apply requests_utils_quote_raises in H |].
  cbn zeta in H.
  apply bind_raise in H as [H | [x5 [_ H]]];
    [now apply subscripts_raises, lookup_error_is_bare in H |].
  apply bind_raise in H as [H | [x6 [_ H]]];
    [now apply getitem_raises, lookup_error_is_bare in H |].
  apply bind_raise in H as [H | [x7 [_ H]]];
    [now apply getitem_raises, lookup_error_is_bare in H |].
  apply bind_raise in H as [H | [x8 [_ H]]];
    [now apply getitem_raises, lookup_error_is_bare in H |].
  apply bind_raise in H as [H | [x9 [_ H]]];
    [now apply subscripts_raises, lookup_error_is_bare in H |].
  apply bind_raise in H as [H | [x10 [_ H]]];
    [now apply getitem_raises, lookup_error_is_bare in H | discriminate H].
Qed.

(** The query stage, the token in hand. *)
Lemma query_stage_failure (clip_id : string) (access_token : jvalue) (e : exn) :
  get_twitch_access_token = Ok access_token ->
  fetch_clip_info_sync clip_id = Raise e ->
  raised_with auth_prefix e = false
  /\ (raised_with protocol_prefix e = true <->
      exists response,
        requests_post gql_url [] (gql_headers access_token) (Some (payload clip_id))
          = inl response
        /\ requests.status_code response <> 200)
  /\ (raised_with shape_prefix e = true <->
      exists response response_data e',
        requests_post gql_url [] (gql_headers access_token) (Some (payload clip_id))
          = inl response
        /\ requests.status_code response = 200
        /\ requests.json response = inl response_data
        /\ parse_clip_information response_data = Raise e').
Proof.
  intros Htok. rewrite (fetch_clip_info_sync_with_token _ _ Htok).
  destruct (requests_post gql_url [] (gql_headers access_token) (Some (payload clip_id)))
    as [response|msg]; cbn [requests.returned bind].
  - destruct (Z.eqb_spec (requests.status_code response) 200) as [Hs|Hs];
      cbn [negb].
    + unfold requests.decoded.
      destruct (requests.json response) as [response_data|msg] eqn:Hjson;
        cbn [bind].
      * destruct (parse_clip_information response_data)
          as [[[clip_data access_data] qualities]|e'] eqn:Hparse; cbn [bind].
        -- intros H. apply after_try_block_failure in H.
           rewrite !(bare_not_own _ _ H). repeat split; try discriminate.
           ++ intros (r & Hr & Hne). now injection Hr as <-.
           ++ intros (r & rd & e' & Hr & _ & Hj & Hp). injection Hr as <-.
              rewrite Hjson in Hj. injection Hj as <-. congruence.
        -- intros H. injection H as <-.
           pose proof (parse_failure_is_shape_error _ _ Hparse) as Hshape.
           unfold UpstreamShapeError in Hshape. split; [| split].
           ++ destruct (raised_with auth_prefix e') eqn:Ha; [| reflexivity].
              rewrite (prefixes_differ auth_prefix shape_prefix e') in Hshape;
                [discriminate | intros d d' E; discriminate E | exact Ha].
           ++ split; [| intros (r & Hr & Hne); now injection Hr as <-].
              intros Hp.
              rewrite (prefixes_differ protocol_prefix shape_prefix e') in Hshape;
                [discriminate | intros d d' E; discriminate E | exact Hp].
           ++ split; [intros _ | intros _; exact Hshape].
              now exists response, response_data, e'.
      * intros H. injection H as <-. repeat split; try discriminate.
        -- intros (r & Hr & Hne). now injection Hr as <-.
        -- intros (r & rd & e' & Hr & _ & Hj & _). injection Hr as <-.
           rewrite Hjson in Hj. discriminate Hj.
    + intros H. injection H as <-. split; [| split].
      * apply (prefixes_differ protocol_prefix);
          [intros d d' E; discriminate E |].
        exact (startswith_app protocol_prefix (requests.text response)).
      * split; [intros _; now exists response |].
        intros _. exact (startswith_app protocol_prefix (requests.text response)).
      * split.
        -- intros Hsh.
           rewrite (prefixes_differ protocol_prefix shape_prefix) in Hsh;
             [discriminate | intros d d' E; discriminate E |].
           exact (startswith_app protocol_prefix (requests.text response)).
        -- intros (r & rd & e' & Hr & Hst & _). injection Hr as <-. contradiction.
  - intros H. injection H as <-. repeat split; try discriminate.
    + intros (r & Hr & _). discriminate Hr.
    + intros (r & rd & e' & Hr & _). discriminate Hr.
Qed.

(** X7.  The text of a failed resolution tells which stage failed, whatever
    the upstream bodies hold: it starts with [Failed to get access token: ]
    exactly when the identity endpoint answered with a status other than 200;
    with [Failed to get clip info: ] exactly when the token was obtained and
    the query endpoint answered with a status other than 200; with
    [Unexpected response structure: ] exactly when the token was obtained,
    the query endpoint answered 200 with a body that decodes, and the [try]
    block failed. *)
Theorem failure_text_tells_stage (clip_id : string) (e : exn) :
  fetch_clip_info_sync clip_id = Raise e ->
  ((exists detail, e = Exception ("Failed to get access token: " +:+ detail)) <->
   exists response,
     requests_post token_url token_params [] None = inl response
     /\ requests.status_code response <> 200)
  /\ ((exists detail, e = Exception ("Failed to get clip info: " +:+ detail)) <->
      exists access_token response,
        get_twitch_access_token = Ok access_token
        /\ requests_post gql_url [] (gql_headers access_token) (Some (payload clip_id))
           = inl response
        /\ requests.status_code response <> 200)
  /\ ((exists detail, e = Exception ("Unexpected response structure: " +:+ detail)) <->
      exists access_token response response_data e',
        get_twitch_access_token = Ok access_token
        /\ requests_post gql_url [] (gql_headers access_token) (Some (payload clip_id))
           = inl response
        /\ requests.status_code response = 200
        /\ requests.json response = inl response_data
        /\ parse_clip_information response_data = Raise e').
Proof.
  intros H.
  change "Failed to get access token: " with auth_prefix.
  change "Failed to get clip info: " with protocol_prefix.
  change "Unexpected response structure: " with shape_prefix.
  rewrite <- !raised_with_iff.
  destruct get_twitch_access_token as [access_token|e0] eqn:Htok.
  - destruct (query_stage_failure _ _ _ Htok H) as (Ha & Hp & Hs).
    split; [| split].
    + rewrite Ha. split; [discriminate |]. intros (r & Hr & Hne).
      exfalso. revert Htok.
      unfold get_twitch_access_token, fetch_twitch_access_token. cbn zeta.
      rewrite Hr. cbn [requests.returned bind].
      now destruct (Z.eqb_spec (requests.status_code r) 200).
    + rewrite Hp. split.
      * intros (r & Hr & Hne). now exists access_token, r.
      * intros (a & r & Ha' & Hr & Hne). injection Ha' as <-. now exists r.
    + rewrite Hs. split.
      * intros (r & rd & e' & Hrest). now exists access_token, r, rd, e'.
      * intros (a & r & rd & e' & Ha' & Hrest). injection Ha' as <-.
        now exists r, rd, e'.
  - assert (He : e = e0).
    { revert H Htok. unfold fetch_clip_info_sync, get_twitch_access_token.
      destruct fetch_twitch_access_token as [token_data|e1]; cbn [bind].
      - intros H Htok. rewrite Htok in H. cbn [bind] in H. congruence.
      - congruence. }
    subst e0. destruct (token_stage_failure _ Htok) as (Ha & Hp & Hs).
    split; [exact Ha |]. split.
    + rewrite Hp. split; [discriminate |]. intros (a & _ & Ha' & _). discriminate Ha'.
    + rewrite Hs. split; [discriminate |].
      intros (a & _ & _ & _ & Ha' & _). discriminate Ha'.
Qed.


(** X9.  The token parameter of a resolved video URL is the percent-encoding
    of the playback token the answer gave: it is made of unreserved
    characters, slashes and percent escapes only (no [&], [=], [?], space or
    quote), and decoding it gives the playback token back. *)
Theorem token_parameter_round_trip (clip_id : string) (info : ClipInfo) :
  fetch_clip_info_sync clip_id = Ok info ->
  exists access_token response response_data access_data base token,
    requests_post gql_url [] (gql_headers access_token) (Some (payload clip_id))
      = inl response
    /\ requests.json response = inl response_data
    /\ subscripts response_data
         [Index 1; Key "data"; Key "clip"; Key "playbackAccessToken"]
       = Ok access_data
    /\ getitem access_data (Key "value") = Ok (JStr token)
    /\ video_url info = base +:+ "&token=" +:+ quote token
    /\ forallb quoted_char (list_ascii_of_string (quote token)) = true
    /\ unquote (quote token) = token.
Proof.
  intros H.
  apply fetch_clip_info_sync_ok in H
    as (access_token & response & response_data & clip_data & access_data
        & qualities & _ & Hpost & _ & Hjson & Hparse
        & signature & token & source & slug
        & _ & Htok & _ & _ & _ & _ & _ & _ & _ & _ & Hurl).
  apply parse_clip_information_ok in Hparse as (_ & Haccess & _).
  exists access_token, response, response_data, access_data,
    (py_str source +:+ "?sig=" +:+ py_str signature), token.
  repeat (split; [assumption |]).
  split; [now rewrite Hurl, !str_app_assoc |].
  split; [apply quote_chars | apply unquote_quote].
Qed.

(** ** The endpoints and the middleware together *)


(** X12.  The middleware leaves the answers of the program's own endpoints as
    they are: the root redirect and every answer of the clip endpoint (whose
    status is 200, 301 or 500) pass through unchanged. *)
Theorem middleware_spares_endpoints
    (request : Request) (call_next : Request -> Response) :
  (call_next request = root
   \/ exists clip_id, handle_clip clip_id request = Ok (call_next request)) ->
  (status_code (call_next request) = 200 \/ status_code (call_next request) = 301
   \/ status_code (call_next request) = 500)
  /\ catch_not_found request call_next = call_next request.
Proof.
  intros H.
  assert (Hs : status_code (call_next request) = 200
               \/ status_code (call_next request) = 301
               \/ status_code (call_next request) = 500).
  { destruct H as [-> | [clip_id H]]; [right; left; reflexivity |].
    destruct (handle_clip_status clip_id request) as (r & Hr & Hs).
    rewrite H in Hr. now injection Hr as <-. }
  split; [exact Hs |]. apply other_status_passes. lia.
Qed.

(** X13.  Text around a user-agent never hides it: a user-agent classified
    as automated stays so with anything put before or after it. *)
Theorem is_bot_monotone (pre ua post : string) :
  is_bot ua = true -> is_bot (pre +:+ ua +:+ post) = true.
Proof.
  intros H. apply is_bot_spec in H as (m & Hin & p & q & Hua).
  apply is_bot_spec. exists m. split; [exact Hin |].
  exists (lower pre +:+ p), (q +:+ lower post).
  now rewrite !lower_app, Hua, !str_app_assoc.
Qed.

Lemma contains_here (x rest : string) : str_contains (x +:+ rest) x = true.
Proof. apply (str_contains_inside EmptyString). Qed.

Lemma contains_later (a rest x : string) :
  str_contains rest x = true -> str_contains (a +:+ rest) x = true.
Proof.
  intros H. apply str_contains_spec in H as (p & q & ->).
  rewrite <- str_app_assoc. apply str_contains_inside.
Qed.

(** X14.  The metadata page sent with status 200 to an automated client
    (the clip resolved, the page encodable) carries, besides the two video
    tags, the title tag ([broadcaster - title]), the site name tag (views and
    creator), the canonical URL, the thumbnail as image and the two fixed type
    tags, each with the values of the resolved clip inserted as [str] prints
    them, unescaped. *)
Theorem metadata_page_tags
    (clip_id : string) (request : Request) (info : ClipInfo) :
  get_clip_info clip_id = Ok info ->
  is_bot (headers_get (headers request) "user-agent" EmptyString) = true ->
  encodable (html_content info (video_url info)) = true ->
  exists content,
    handle_clip clip_id request = Ok (HTMLResponse content 200)
    /\ str_contains content
         ("<meta property=" +:+ DQ +:+ "og:title" +:+ DQ +:+ " content=" +:+ DQ
          +:+ (py_str (broadcaster_name info) +:+ " - " +:+ py_str (title info))
          +:+ DQ +:+ ">")
       = true
    /\ str_contains content
         ("<meta property=" +:+ DQ +:+ "og:type" +:+ DQ +:+ " content=" +:+ DQ
          +:+ "video" +:+ DQ +:+ ">")
       = true
    /\ str_contains content
         ("<meta property=" +:+ DQ +:+ "og:site_name" +:+ DQ +:+ " content=" +:+ DQ
          +:+ ("👁️ Views: " +:+ py_str (view_count info) +:+ " | "
               +:+ py_str (creator_name info))
          +:+ DQ +:+ ">")
       = true
    /\ str_contains content
         ("<meta property=" +:+ DQ +:+ "og:url" +:+ DQ +:+ " content=" +:+ DQ
          +:+ url info +:+ DQ +:+ ">")
       = true
    /\ str_contains content
         ("<meta property=" +:+ DQ +:+ "og:video:type" +:+ DQ +:+ " content=" +:+ DQ
          +:+ "video/mp4" +:+ DQ +:+ ">")
       = true
    /\ str_contains content
         ("<meta property=" +:+ DQ +:+ "og:image" +:+ DQ +:+ " content=" +:+ DQ
          +:+ thumbnail_url info +:+ DQ +:+ ">")
       = true.
Proof.
  intros H Hbot Henc. rewrite (handle_clip_page _ _ _ H Hbot Henc).
  eexists. split; [reflexivity |]. rewrite <- !og_spelled. unfold html_content.
  repeat split.
  - do 16 apply contains_later. apply contains_here.
  - do 19 apply contains_later. apply contains_here.
  - do 22 apply contains_later. apply contains_here.
  - do 25 apply contains_later. apply contains_here.
  - do 34 apply contains_later. apply contains_here.
  - do 37 apply contains_later. apply contains_here.
Qed.

(** ** The shortener *)

(** X15.  When the shortening service answers with a status other than 200
    the shortener fails with the fixed text [Failed to shorten URL], whatever
    the body of the answer was: nothing of the answer is passed on. *)
Theorem shortener_failure_is_fixed (url : string) (response : requests.Response) :
  requests_get TINYURL_API [("url", Some url)] = inl response ->
  requests.status_code response <> 200 ->
  shorten_url url = Raise (Exception "Failed to shorten URL")
  /\ str_exn (Exception "Failed to shorten URL") = "Failed to shorten URL".
Proof.
  intros Hget Hstatus. split; [| reflexivity].
  unfold shorten_url, fetch_shortened_url_sync. rewrite Hget.
  cbn [requests.returned bind].
  now destruct (Z.eqb_spec (requests.status_code response) 200).
Qed.

(** X16.  When the shortening service answers 200 the shortener returns the
    body without the white space around it: the body is white space, the
    result, white space; the result neither starts nor ends with white space,
    and trimming it again changes nothing.  A blank body gives the empty
    text, not an error. *)
Theorem shortener_returns_trimmed_body (url : string) (response : requests.Response) :
  requests_get TINYURL_API [("url", Some url)] = inl response ->
  requests.status_code response = 200 ->
  exists shortened pre post,
    shorten_url url = Ok shortened
    /\ requests.text response = pre +:+ shortened +:+ post
    /\ lstrip pre = EmptyString /\ rstrip post = EmptyString
    /\ space_head shortened = None
    /\ space_last (str_rev shortened) = None
    /\ strip shortened = shortened
    /\ (lstrip (requests.text response) = EmptyString -> shortened = EmptyString).
Proof.
  intros Hget Hstatus.
  destruct (strip_split (requests.text response)) as (pre & post & Hs & Hpre & Hpost).
  destruct (strip_ends (requests.text response)) as [Hh Hl].
  exists (strip (requests.text response)), pre, post.
  repeat split; try assumption.
  - unfold shorten_url, fetch_shortened_url_sync. rewrite Hget.
    cbn [requests.returned bind]. now rewrite Hstatus.
  - apply strip_idem.
  - intros Hblank. unfold strip. now rewrite Hblank.
Qed.

End App.

(** ** The program run on the samples *)

Section Runs.

Import Sample.

#[local] Abbreviation resolve post :=
  (fetch_clip_info_sync client_id client_secret post Sample.str_other).
#[local] Abbreviation serve post :=
  (handle_clip client_id client_secret post Sample.str_other).
#[local] Abbreviation token_of post :=
  (get_twitch_access_token client_id client_secret post).

(** The valid clip resolves to the first of its two variants. *)
Lemma resolved_video_url_witness :
  resolve valid_clip "TameClip" = Ok resolved
  /\ exists (source signature : jvalue) (token : string),
       video_url resolved =
       py_str Sample.str_other source +:+ "?sig="
       +:+ py_str Sample.str_other signature +:+ "&token=" +:+ quote token.
Proof.
  assert (H : resolve valid_clip "TameClip" = Ok resolved)
    by (vm_compute; reflexivity).
  split; [exact H |].
  destruct (resolved_video_url client_id client_secret valid_clip Sample.str_other
              "TameClip" resolved H)
    as (_ & _ & _ & _ & _ & _ & source & signature & token
        & _ & _ & _ & _ & _ & _ & _ & Hurl & _).
  now exists source, signature, token.
Defined.

Lemma thumbnail_url_of_slug_witness :
  resolve valid_clip "TameClip" = Ok resolved
  /\ exists slug : jvalue,
       thumbnail_url resolved = thumbnail_of_slug Sample.str_other slug.
Proof.
  assert (H : resolve valid_clip "TameClip" = Ok resolved)
    by (vm_compute; reflexivity).
  split; [exact H |].
  destruct (proj2 (proj2 (thumbnail_url_of_slug client_id client_secret valid_clip
                            Sample.str_other)) "TameClip" resolved H)
    as (_ & _ & _ & _ & slug & _ & _ & _ & _ & Hthumb).
  now exists slug.
Defined.



Lemma regular_visitor_gets_redirect_witness :
  serve spaced_source "TameClip" browser
  = Ok (RedirectResponse
          "https://cdn.example/my%20clip.mp4?sig=5f1e&token=clip%3D1%26x%3Da%20b" 301)
  /\ ("https://cdn.example/my%20clip.mp4?sig=5f1e&token=clip%3D1%26x%3Da%20b"
      = video_url resolved_spaced <->
      forallb (kept ":/%#?=@[]!$&'()*+,;")
        (list_ascii_of_string (video_url resolved_spaced))
      = true)
  /\ forall (content : string) (code : Z),
       serve spaced_source "TameClip" browser <> Ok (HTMLResponse content code).
Proof.
  apply (regular_visitor_gets_redirect client_id client_secret spaced_source
           Sample.str_other "TameClip" browser resolved_spaced).
  - vm_compute. reflexivity.
  - vm_compute. reflexivity.
  - vm_compute. reflexivity.
Defined.

(** C4 as it is stated fails on a clip whose source URL holds a space: the
    target of the redirect is the video URL with the space escaped, not the
    video URL itself.  It fails too on a source URL with a lone surrogate:
    the redirect cannot be written and the answer is status 500. *)
Lemma redirect_target_counterexample :
  exists info,
    resolve spaced_source "TameClip" = Ok info
    /\ is_bot (headers_get (headers browser) "user-agent" EmptyString) = false
    /\ video_url info
       = "https://cdn.example/my clip.mp4?sig=5f1e&token=clip%3D1%26x%3Da%20b"
    /\ serve spaced_source "TameClip" browser
       = Ok (RedirectResponse
               "https://cdn.example/my%20clip.mp4?sig=5f1e&token=clip%3D1%26x%3Da%20b"
               301)
    /\ "https://cdn.example/my%20clip.mp4?sig=5f1e&token=clip%3D1%26x%3Da%20b"
       <> video_url info
    /\ (exists info', resolve cursed_source "TameClip" = Ok info')
    /\ serve cursed_source "TameClip" browser
       = Ok (PlainTextResponse
               "Error: 'utf-8' codec can't encode character '\ud800' in position 20: surrogates not allowed"
               500).
Proof.
  eexists. split; [vm_compute; reflexivity |].
  split; [vm_compute; reflexivity |]. split; [vm_compute; reflexivity |].
  split; [vm_compute; reflexivity |]. split; [discriminate |].
  split; [eexists; vm_compute; reflexivity | vm_compute; reflexivity].
Qed.


Lemma missing_user_agent_gets_redirect_witness :
  headers_get (headers anonymous) "user-agent" EmptyString = EmptyString
  /\ is_bot EmptyString = false
  /\ serve spaced_source "TameClip" anonymous
     = Ok (RedirectResponse
             "https://cdn.example/my%20clip.mp4?sig=5f1e&token=clip%3D1%26x%3Da%20b"
             301).
Proof.
  apply (missing_user_agent_gets_redirect client_id client_secret spaced_source
           Sample.str_other "TameClip" anonymous resolved_spaced).
  - intros value H. destruct H as [H | H]; [discriminate H | destruct H].
  - vm_compute. reflexivity.
  - vm_compute. reflexivity.
Defined.

(** C10 as it is stated fails on a clip whose source URL holds a lone
    surrogate: the request has no user-agent header, the clip resolves, and
    the redirect cannot be written, so the answer is status 500. *)
Lemma unencodable_redirect_counterexample :
  exists info,
    resolve cursed_source "TameClip" = Ok info
    /\ headers_get (headers anonymous) "user-agent" EmptyString = EmptyString
    /\ serve cursed_source "TameClip" anonymous
       = Ok (PlainTextResponse
               "Error: 'utf-8' codec can't encode character '\ud800' in position 20: surrogates not allowed"
               500).
Proof.
  eexists. split; [vm_compute; reflexivity |].
  split; vm_compute; reflexivity.
Qed.


(** The refused credentials raise the fetch's own error; the granted token is
    read out of the body. *)
Lemma access_token_contract_witness :
  token_of (upstream token_refused query_unavailable)
  = Raise (Exception
             (auth_prefix +:+
              jobj [jfield "status" "403";
                    jfield "message" (jstr "invalid client secret")]))
  /\ token_of valid_clip = Ok (JStr "tok123").
Proof.
  split.
  - refine (proj1 (access_token_contract client_id client_secret
                     (upstream token_refused query_unavailable)) _ eq_refl _).
    vm_compute. discriminate.
  - refine (proj1 (proj2 (proj2 (access_token_contract client_id client_secret
                                   valid_clip))) _ _ eq_refl eq_refl eq_refl).
Defined.

(** C6 as it is stated fails on a 200 answer whose body lacks the field: the
    fetch hands the body back, and reading the token fails with [KeyError],
    which is not the fetch's own error. *)
Lemma token_body_without_field_counterexample :
  token_without_field = Sample.answer 200 "{}" (inl (JDict ∅))
  /\ fetch_twitch_access_token client_id client_secret
       (upstream token_without_field (clip_answer []))
     = Ok (JDict ∅)
  /\ token_of (upstream token_without_field (clip_answer []))
     = Raise (KeyError (Key "access_token"))
  /\ resolve (upstream token_without_field (clip_answer [])) "TameClip"
     = Raise (KeyError (Key "access_token"))
  /\ UpstreamAuthError (KeyError (Key "access_token")) = false.
Proof. repeat split; vm_compute; reflexivity. Qed.

(** C5, at a quality list that is present but empty.  The [try] block of the
    resolver passes, the first entry is then taken outside it, and the
    resolution fails with the list's [IndexError] and not with the error the
    block raises for a malformed answer; the client reads that text. *)
Theorem empty_quality_list_escapes_try_block :
  parse_clip_information (JList [overlay; access []])
  = Ok (JDict {[ "broadcaster" :=
                   JDict {[ "displayName" := JStr "Bob"; "login" := JStr "bob" ]};
                 "slug" := JStr "TameClip";
                 "title" := JStr "Nice shot";
                 "viewCount" := JInt 42 ]},
        JDict {[ "signature" := JStr "5f1e"; "value" := JStr "clip=1&x=a b" ]},
        JList [])
  /\ resolve clip_without_qualities "TameClip"
     = Raise (IndexError "list index out of range")
  /\ UpstreamShapeError (IndexError "list index out of range") = false
  /\ serve clip_without_qualities "TameClip" browser
     = Ok (PlainTextResponse "Error: list index out of range" 500).
Proof. repeat split; vm_compute; reflexivity. Qed.

(** *** Runs for the further properties *)

#[local] Abbreviation unavailable :=
  {| requests.status_code := 503;
     requests.text := "Service Unavailable";
     requests.json := inr "Expecting value: line 1 column 1 (char 0)" |}.

#[local] Abbreviation refused :=
  {| requests.status_code := 403;
     requests.text :=
       jobj [jfield "status" "403"; jfield "message" (jstr "invalid client secret")];
     requests.json :=
       inl (JDict {[ "status" := JInt 403;
                     "message" := JStr "invalid client secret" ]}) |}.

(** The gone clip: the first chain reads a null clip, the second fails on it. *)
Lemma try_block_failure_is_wrapped_witness :
  exists e0,
    lookup_or_type_error e0 = true
    /\ Exception "Unexpected response structure: 'NoneType' object is not subscriptable"
       = Exception ("Unexpected response structure: " +:+ str_exn e0)
    /\ (subscripts (JList [gone; gone]) [Index 0; Key "data"; Key "clip"] = Raise e0
        \/ (subscripts (JList [gone; gone]) [Index 0; Key "data"; Key "clip"]
            <> Raise e0
            /\ subscripts (JList [gone; gone])
                 [Index 1; Key "data"; Key "clip"; Key "playbackAccessToken"]
               = Raise e0)
        \/ subscripts (JList [gone; gone])
             [Index 1; Key "data"; Key "clip"; Key "videoQualities"] = Raise e0).
Proof.
  apply (try_block_failure_is_wrapped (JList [gone; gone])).
  vm_compute. reflexivity.
Defined.



Lemma undecodable_answer_is_not_wrapped_witness :
  resolve (upstream token_granted query_garbled) "TameClip"
  = Raise (JSONDecodeError "Expecting value: line 1 column 1 (char 0)")
  /\ UpstreamShapeError (JSONDecodeError "Expecting value: line 1 column 1 (char 0)")
     = false.
Proof.
  apply (undecodable_answer_is_not_wrapped client_id client_secret
           (upstream token_granted query_garbled) Sample.str_other
           "TameClip" (JStr "tok123")
           {| requests.status_code := 200;
              requests.text := "<html>Bad Gateway</html>";
              requests.json := inr "Expecting value: line 1 column 1 (char 0)" |}).
  - vm_compute. reflexivity.
  - vm_compute. reflexivity.
  - reflexivity.
  - reflexivity.
Defined.

Lemma token_value_must_be_text_witness :
  resolve (upstream token_granted clip_null_value) "TameClip"
  = Raise (TypeError "quote_from_bytes() expected bytes")
  /\ UpstreamShapeError (TypeError "quote_from_bytes() expected bytes") = false.
Proof.
  apply (token_value_must_be_text client_id client_secret
           (upstream token_granted clip_null_value) Sample.str_other
           "TameClip" (JStr "tok123")
           {| requests.status_code := 200;
              requests.text := jarr [overlay_text; access_null_value_text];
              requests.json := inl (JList [overlay; access_null_value]) |}
           (JList [overlay; access_null_value])
           (JDict {[ "broadcaster" :=
                       JDict {[ "displayName" := JStr "Bob"; "login" := JStr "bob" ]};
                     "slug" := JStr "TameClip";
                     "title" := JStr "Nice shot";
                     "viewCount" := JInt 42 ]})
           (JDict {[ "signature" := JStr "5f1e"; "value" := JNull ]})
           (JList [quality "https://cdn.example/clip-1080.mp4"])
           (JStr "5f1e") JNull (JStr "https://cdn.example/clip-1080.mp4")).
  - vm_compute. reflexivity.
  - vm_compute. reflexivity.
  - reflexivity.
  - reflexivity.
  - vm_compute. reflexivity.
  - vm_compute. reflexivity.
  - vm_compute. reflexivity.
  - vm_compute. reflexivity.
  - intros text. discriminate.
Defined.


Lemma token_parameter_round_trip_witness :
  resolve valid_clip "TameClip" = Ok resolved
  /\ exists base token : string,
       video_url resolved = base +:+ "&token=" +:+ quote token
       /\ unquote (quote token) = token.
Proof.
  assert (H : resolve valid_clip "TameClip" = Ok resolved)
    by (vm_compute; reflexivity).
  split; [exact H |].
  destruct (token_parameter_round_trip client_id client_secret valid_clip
              Sample.str_other "TameClip" resolved H)
    as (_ & _ & _ & _ & base & token & _ & _ & _ & _ & Hurl & _ & Hback).
  now exists base, token.
Defined.

Lemma middleware_spares_endpoints_witness :
  (status_code root = 200 \/ status_code root = 301 \/ status_code root = 500)
  /\ catch_not_found anonymous (fun _ => root) = root.
Proof.
  apply (middleware_spares_endpoints client_id client_secret valid_clip
           Sample.str_other anonymous (fun _ => root)).
  left. reflexivity.
Defined.

Lemma is_bot_monotone_witness :
  is_bot ("Mozilla/5.0 (compatible; " +:+ "Googlebot" +:+ "/2.1)") = true.
Proof. apply is_bot_monotone. reflexivity. Defined.

Lemma metadata_page_tags_witness :
  exists content,
    serve valid_clip "TameClip" crawler = Ok (HTMLResponse content 200)
    /\ str_contains content
         ("<meta property=" +:+ DQ +:+ "og:title" +:+ DQ +:+ " content=" +:+ DQ
          +:+ ("Bob" +:+ " - " +:+ "Nice shot") +:+ DQ +:+ ">")
       = true
    /\ str_contains content
         ("<meta property=" +:+ DQ +:+ "og:type" +:+ DQ +:+ " content=" +:+ DQ
          +:+ "video" +:+ DQ +:+ ">")
       = true
    /\ str_contains content
         ("<meta property=" +:+ DQ +:+ "og:site_name" +:+ DQ +:+ " content=" +:+ DQ
          +:+ ("👁️ Views: " +:+ "42" +:+ " | " +:+ "bob") +:+ DQ +:+ ">")
       = true
    /\ str_contains content
         ("<meta property=" +:+ DQ +:+ "og:url" +:+ DQ +:+ " content=" +:+ DQ
          +:+ "https://clips.twitch.tv/TameClip" +:+ DQ +:+ ">")
       = true
    /\ str_contains content
         ("<meta property=" +:+ DQ +:+ "og:video:type" +:+ DQ +:+ " content=" +:+ DQ
          +:+ "video/mp4" +:+ DQ +:+ ">")
       = true
    /\ str_contains content
         ("<meta property=" +:+ DQ +:+ "og:image" +:+ DQ +:+ " content=" +:+ DQ
          +:+ "https://clips-media-assets2.twitch.tv/TameClip-preview-480x272.jpg"
          +:+ DQ +:+ ">")
       = true.
Proof.
  apply (metadata_page_tags client_id client_secret valid_clip
           Sample.str_other "TameClip" crawler resolved).
  - vm_compute. reflexivity.
  - vm_compute. reflexivity.
  - vm_compute. reflexivity.
Defined.

(** The query endpoint is down: the text names the query stage. *)
Lemma failure_text_tells_stage_witness :
  ((exists detail,
      Exception "Failed to get clip info: Service Unavailable"
      = Exception ("Failed to get access token: " +:+ detail)) <->
   exists response,
     upstream token_granted query_unavailable token_url
       (token_params client_id client_secret) [] None = inl response
     /\ requests.status_code response <> 200)
  /\ ((exists detail,
         Exception "Failed to get clip info: Service Unavailable"
         = Exception ("Failed to get clip info: " +:+ detail)) <->
      exists access_token response,
        token_of (upstream token_granted query_unavailable) = Ok access_token
        /\ upstream token_granted query_unavailable gql_url []
             (gql_headers Sample.str_other access_token) (Some (payload "TameClip"))
           = inl response
        /\ requests.status_code response <> 200)
  /\ ((exists detail,
         Exception "Failed to get clip info: Service Unavailable"
         = Exception ("Unexpected response structure: " +:+ detail)) <->
      exists access_token response response_data e',
        token_of (upstream token_granted query_unavailable) = Ok access_token
        /\ upstream token_granted query_unavailable gql_url []
             (gql_headers Sample.str_other access_token) (Some (payload "TameClip"))
           = inl response
        /\ requests.status_code response = 200
        /\ requests.json response = inl response_data
        /\ parse_clip_information response_data = Raise e').
Proof.
  apply (failure_text_tells_stage client_id client_secret
           (upstream token_granted query_unavailable) Sample.str_other "TameClip").
  vm_compute. reflexivity.
Defined.

Lemma shortener_failure_is_fixed_witness :
  shorten_url tinyurl_fails "https://example.org/a/long/address"
  = Raise (Exception "Failed to shorten URL")
  /\ str_exn (Exception "Failed to shorten URL") = "Failed to shorten URL".
Proof.
  apply (shortener_failure_is_fixed tinyurl_fails "https://example.org/a/long/address"
           {| requests.status_code := 500;
              requests.text := "db-7.internal: too many connections";
              requests.json := inr "Expecting value: line 1 column 1 (char 0)" |}).
  - reflexivity.
  - vm_compute. discriminate.
Defined.

Lemma shortener_returns_trimmed_body_witness :
  exists shortened pre post,
    shorten_url tinyurl_answers "https://example.org/a/long/address" = Ok shortened
    /\ "https://tinyurl.com/2p8x" +:+ newline = pre +:+ shortened +:+ post
    /\ lstrip pre = EmptyString /\ rstrip post = EmptyString
    /\ space_head shortened = None
    /\ space_last (str_rev shortened) = None
    /\ strip shortened = shortened
    /\ (lstrip ("https://tinyurl.com/2p8x" +:+ newline) = EmptyString ->
        shortened = EmptyString).
Proof.
  apply (shortener_returns_trimmed_body tinyurl_answers
           "https://example.org/a/long/address"
           {| requests.status_code := 200;
              requests.text := "https://tinyurl.com/2p8x" +:+ newline;
              requests.json := inr "Expecting value: line 1 column 1 (char 0)" |}).
  - reflexivity.
  - reflexivity.
Defined.

End Runs.
